(** * hancock: signing and validation of URL query strings

    A shallow embedding of the Go package [hancock] (functions
    [isValidTS], [Validate], [SignQS], [Sign], [newError]) together with
    the parts of the Go standard library it calls: [net/url] (query
    escaping, [url.Values], [ParseQuery], [Encode]), [strconv.ParseInt],
    [fmt.Sprintf] for the formats used, [crypto/sha256], [crypto/hmac]
    and [encoding/base64].

    Go strings are byte sequences and are modelled by [string] (a list of
    8-bit characters); [int64] values are integers of [Z] with the
    wrap-around written out; [url.Values] (a [map[string][]string]) is a
    finite map from strings to lists of strings; the clock
    [time.Now().UTC().Unix()] is an explicit argument [now]. *)

From Stdlib Require Import ZArith Lia List Ascii String.
From stdpp Require Import base tactics option list strings gmap fin_maps sorting.

Local Open Scope Z_scope.

(** ** Bytes *)

Module Bytes.

(** A Go [byte] is an integer in [0, 256). *)
Definition byte_of_ascii (c : ascii) : Z := Z.of_N (N_of_ascii c).
Definition ascii_of_byte (b : Z) : ascii := ascii_of_N (Z.to_N (b mod 256)).

(** [[]byte(s)] *)
Fixpoint bytes_of_string (s : string) : list Z :=
  match s with
  | EmptyString => []
  | String c s' => byte_of_ascii c :: bytes_of_string s'
  end.

(** [string(bs)] *)
Fixpoint string_of_bytes (bs : list Z) : string :=
  match bs with
  | [] => EmptyString
  | b :: bs' => String (ascii_of_byte b) (string_of_bytes bs')
  end.

End Bytes.

(** ** crypto/sha256 (FIPS 180-4) *)

Module SHA256.

Definition w32 (x : Z) : Z := x mod 2 ^ 32.
Definition add32 (x y : Z) : Z := w32 (x + y).
Definition rotr (n x : Z) : Z := Z.lor (Z.shiftr x n) (w32 (Z.shiftl x (32 - n))).
Definition not32 (x : Z) : Z := Z.lxor x (2 ^ 32 - 1).

Definition Ch (x y z : Z) : Z := Z.lxor (Z.land x y) (Z.land (not32 x) z).
Definition Maj (x y z : Z) : Z :=
  Z.lxor (Z.lxor (Z.land x y) (Z.land x z)) (Z.land y z).
Definition Sigma0 (x : Z) : Z := Z.lxor (Z.lxor (rotr 2 x) (rotr 13 x)) (rotr 22 x).
Definition Sigma1 (x : Z) : Z := Z.lxor (Z.lxor (rotr 6 x) (rotr 11 x)) (rotr 25 x).
Definition sigma0 (x : Z) : Z := Z.lxor (Z.lxor (rotr 7 x) (rotr 18 x)) (Z.shiftr x 3).
Definition sigma1 (x : Z) : Z := Z.lxor (Z.lxor (rotr 17 x) (rotr 19 x)) (Z.shiftr x 10).

(** The round constants: the first 32 bits of the fractional parts of the
    cube roots of the first 64 primes. *)
Definition K : list Z :=
  [
    1116352408; 1899447441; 3049323471; 3921009573;
    961987163; 1508970993; 2453635748; 2870763221;
    3624381080; 310598401; 607225278; 1426881987;
    1925078388; 2162078206; 2614888103; 3248222580;
    3835390401; 4022224774; 264347078; 604807628;
    770255983; 1249150122; 1555081692; 1996064986;
    2554220882; 2821834349; 2952996808; 3210313671;
    3336571891; 3584528711; 113926993; 338241895;
    666307205; 773529912; 1294757372; 1396182291;
    1695183700; 1986661051; 2177026350; 2456956037;
    2730485921; 2820302411; 3259730800; 3345764771;
    3516065817; 3600352804; 4094571909; 275423344;
    430227734; 506948616; 659060556; 883997877;
    958139571; 1322822218; 1537002063; 1747873779;
    1955562222; 2024104815; 2227730452; 2361852424;
    2428436474; 2756734187; 3204031479; 3329325298
  ].

(** The initial hash value: the first 32 bits of the fractional parts of
    the square roots of the first 8 primes. *)
Definition init : list Z :=
  [
    1779033703; 3144134277; 1013904242; 2773480762;
    1359893119; 2600822924; 528734635; 1541459225
  ].

(** The eight working variables a..h. *)
Record regs := Regs { ra : Z; rb : Z; rc : Z; rd : Z; re : Z; rf : Z; rg : Z; rh : Z }.

Definition regs_of_list (h : list Z) : regs :=
  Regs (nth 0 h 0) (nth 1 h 0) (nth 2 h 0) (nth 3 h 0)
       (nth 4 h 0) (nth 5 h 0) (nth 6 h 0) (nth 7 h 0).

Definition list_of_regs (r : regs) : list Z :=
  [ra r; rb r; rc r; rd r; re r; rf r; rg r; rh r].

Definition round (r : regs) (k w : Z) : regs :=
  let t1 := add32 (add32 (add32 (add32 (rh r) (Sigma1 (re r))) (Ch (re r) (rf r) (rg r))) k) w in
  let t2 := add32 (Sigma0 (ra r)) (Maj (ra r) (rb r) (rc r)) in
  Regs (add32 t1 t2) (ra r) (rb r) (rc r) (add32 (rd r) t1) (re r) (rf r) (rg r).

(** [ws] is the window W[t..t+15] of the message schedule. *)
Fixpoint rounds (ks ws : list Z) (r : regs) : regs :=
  match ks with
  | [] => r
  | k :: ks' =>
      let w := nth 0 ws 0 in
      let wnew := add32 (add32 (add32 (sigma1 (nth 14 ws 0)) (nth 9 ws 0))
                               (sigma0 (nth 1 ws 0))) w in
      rounds ks' (tl ws ++ [wnew]) (round r k w)
  end.

(** Big-endian 32-bit words of a 64-byte block. *)
Fixpoint words (bs : list Z) : list Z :=
  match bs with
  | b0 :: b1 :: b2 :: b3 :: bs' =>
      (Z.lor (Z.lor (Z.lor (Z.shiftl b0 24) (Z.shiftl b1 16)) (Z.shiftl b2 8)) b3) :: words bs'
  | _ => []
  end.

Definition block (h : list Z) (bs : list Z) : list Z :=
  let r := rounds K (words bs) (regs_of_list h) in
  zip_with add32 h (list_of_regs r).

Fixpoint blocks (n : nat) (h : list Z) (bs : list Z) : list Z :=
  match n with
  | O => h
  | S n' => blocks n' (block h (take 64 bs)) (drop 64 bs)
  end.

(** Big-endian bytes of the [n] low bytes of [x]. *)
Fixpoint be_bytes (n : nat) (x : Z) : list Z :=
  match n with
  | O => []
  | S n' => (Z.shiftr x (8 * Z.of_nat n')) mod 256 :: be_bytes n' x
  end.

Definition pad (msg : list Z) : list Z :=
  let len := Z.of_nat (length msg) in
  let zeros := Z.to_nat ((55 - len) mod 64) in
  msg ++ [0x80] ++ replicate zeros 0 ++ be_bytes 8 (8 * len).

(** [sha256.Sum256(msg)] as 32 bytes. *)
Definition Sum256 (msg : list Z) : list Z :=
  let p := pad msg in
  let h := blocks (length p / 64)%nat init p in
  flat_map (be_bytes 4) h.

End SHA256.

(** ** crypto/hmac with SHA-256 (RFC 2104) *)

Module HMAC.

Definition blocksize : nat := 64.

Definition xor_pad (c : Z) (key : list Z) : list Z := map (fun b => Z.lxor b c) key.

(** [hmac.New(sha256.New, key)]; [Write(msg)]; [Sum(nil)] *)
Definition Sum (key msg : list Z) : list Z :=
  let key1 := if (blocksize <? length key)%nat then SHA256.Sum256 key else key in
  let key2 := key1 ++ replicate (blocksize - length key1) 0 in
  let inner := SHA256.Sum256 (xor_pad 0x36 key2 ++ msg) in
  SHA256.Sum256 (xor_pad 0x5c key2 ++ inner).

End HMAC.

(** ** encoding/base64, [URLEncoding] (RFC 4648 section 5, padded) *)

Module Base64.

Definition encodeURL : string :=
  "ABCDEFGHIJKLMNOPQRSTUVWXYZabcdefghijklmnopqrstuvwxyz0123456789-_".

Definition StdPadding : ascii := "="%char.

Definition enc (i : Z) : ascii :=
  match String.get (Z.to_nat i) encodeURL with
  | Some c => c
  | None => StdPadding
  end.

Fixpoint EncodeToString (src : list Z) : string :=
  match src with
  | [] => ""
  | [b0] =>
      let val := Z.shiftl b0 16 in
      String (enc (Z.land (Z.shiftr val 18) 63))
     (String (enc (Z.land (Z.shiftr val 12) 63))
     (String StdPadding (String StdPadding EmptyString)))
  | [b0; b1] =>
      let val := Z.lor (Z.shiftl b0 16) (Z.shiftl b1 8) in
      String (enc (Z.land (Z.shiftr val 18) 63))
     (String (enc (Z.land (Z.shiftr val 12) 63))
     (String (enc (Z.land (Z.shiftr val 6) 63))
     (String StdPadding EmptyString)))
  | b0 :: b1 :: b2 :: rest =>
      let val := Z.lor (Z.lor (Z.shiftl b0 16) (Z.shiftl b1 8)) b2 in
      String (enc (Z.land (Z.shiftr val 18) 63))
     (String (enc (Z.land (Z.shiftr val 12) 63))
     (String (enc (Z.land (Z.shiftr val 6) 63))
     (String (enc (Z.land val 63)) (EncodeToString rest))))
  end.

End Base64.


(** ** strings *)

Module Strings.

(** [strings.Cut(s, sep)] for a one-byte separator: the text before and
    after its first occurrence, and whether it occurs. *)
Fixpoint Cut (s : string) (sep : ascii) : string * string * bool :=
  match s with
  | "" => ("", "", false)
  | String c s' =>
      if decide (c = sep) then ("", s', true)
      else let '(before, after, found) := Cut s' sep in
           (String c before, after, found)
  end.

(** [strings.Contains(s, sep)] for a one-byte [sep]. *)
Fixpoint Contains (s : string) (sep : ascii) : bool :=
  match s with
  | "" => false
  | String c s' => if decide (c = sep) then true else Contains s' sep
  end.

End Strings.

(** ** net/url *)

Module URL.
Import Bytes.

Definition between (lo hi c : ascii) : bool :=
  (byte_of_ascii lo <=? byte_of_ascii c) && (byte_of_ascii c <=? byte_of_ascii hi).

(** [shouldEscape(c, encodeQueryComponent)] *)
Definition shouldEscape (c : ascii) : bool :=
  if between "a" "z" c || between "A" "Z" c || between "0" "9" c then false
  else match c with
       | "-" | "_" | "." | "~" => false
       | "$" | "&" | "+" | "," | "/" | ":" | ";" | "=" | "?" | "@" => true
       | _ => true
       end%char.

Definition upperhex : string := "0123456789ABCDEF".

Definition hexchar (i : Z) : ascii :=
  match String.get (Z.to_nat i) upperhex with
  | Some c => c
  | None => "0"%char
  end.

(** [QueryEscape(s)], i.e. [escape(s, encodeQueryComponent)] *)
Fixpoint QueryEscape (s : string) : string :=
  match s with
  | "" => ""
  | String c s' =>
      if decide (c = " "%char) then String "+" (QueryEscape s')
      else if shouldEscape c then
        String "%" (String (hexchar (Z.shiftr (byte_of_ascii c) 4))
                   (String (hexchar (Z.land (byte_of_ascii c) 15)) (QueryEscape s')))
      else String c (QueryEscape s')
  end.

Definition ishex (c : ascii) : bool :=
  between "0" "9" c || between "a" "f" c || between "A" "F" c.

Definition unhex (c : ascii) : Z :=
  if between "0" "9" c then byte_of_ascii c - byte_of_ascii "0"
  else if between "a" "f" c then byte_of_ascii c - byte_of_ascii "a" + 10
  else if between "A" "F" c then byte_of_ascii c - byte_of_ascii "A" + 10
  else 0.

(** Errors of [ParseQuery]. [EscapeError] carries the offending text. *)
Inductive error :=
| EscapeError (s : string)
| SemicolonError.

(** [s[:n]] when [len(s) > n], else [s]. *)
Fixpoint prefix (n : nat) (s : string) : string :=
  match n, s with
  | S n', String c s' => String c (prefix n' s')
  | _, _ => ""
  end.

(** [QueryUnescape(s)], i.e. [unescape(s, encodeQueryComponent)]: the
    first malformed percent-escape makes the whole call fail. *)
Fixpoint QueryUnescape (s : string) : string + error :=
  match s with
  | "" => inl ""
  | String c s' =>
      if decide (c = "%"%char) then
        match s' with
        | String h1 (String h2 s'') =>
            if ishex h1 && ishex h2 then
              match QueryUnescape s'' with
              | inl t => inl (String (ascii_of_byte (Z.lor (Z.shiftl (unhex h1) 4) (unhex h2))) t)
              | inr e => inr e
              end
            else inr (EscapeError (prefix 3 s))
        | _ => inr (EscapeError (prefix 3 s))
        end
      else
        match QueryUnescape s' with
        | inl t => inl (String (if decide (c = "+"%char) then " "%char else c) t)
        | inr e => inr e
        end
  end.

(** [url.Values], a [map[string][]string]. *)
Abbreviation Values := (gmap string (list string)).

(** [v[key]], the nil slice when the key is absent. *)
Definition index (v : Values) (key : string) : list string := default [] (v !! key).

Definition Get (v : Values) (key : string) : string :=
  match index v key with
  | [] => ""
  | x :: _ => x
  end.

Definition Add (v : Values) (key value : string) : Values :=
  <[key := index v key ++ [value]]> v.

Definition Del (v : Values) (key : string) : Values := delete key v.

(** The keys of [v], as [slices.Sort] leaves them. *)
Definition sorted_keys (v : Values) : list string :=
  merge_sort String.le (map_to_list v).*1.

(** One [key=value] pair written to the buffer of [Encode]. *)
Definition write_pair (keyEscaped : string) (buf value : string) : string :=
  (if (0 <? String.length buf)%nat then buf +:+ "&" else buf)
    +:+ keyEscaped +:+ "=" +:+ QueryEscape value.

(** [v.Encode()] *)
Definition Encode (v : Values) : string :=
  if (size v =? 0)%nat then ""
  else
    fold_left (fun buf k => fold_left (write_pair (QueryEscape k)) (index v k) buf)
              (sorted_keys v) "".

(** The loop of [parseQuery]; [fuel] bounds the number of iterations,
    each of which shortens [query]. *)
Fixpoint parseQuery (fuel : nat) (m : Values) (err : option error) (query : string)
  : Values * option error :=
  match fuel with
  | O => (m, err)
  | S fuel' =>
      match query with
      | "" => (m, err)
      | _ =>
          let '(key, query', _) := Strings.Cut query "&" in
          if Strings.Contains key ";" then parseQuery fuel' m (Some SemicolonError) query'
          else if decide (key = "") then parseQuery fuel' m err query'
          else
            let '(key, value, _) := Strings.Cut key "=" in
            match QueryUnescape key with
            | inr err1 =>
                parseQuery fuel' m (if err is None then Some err1 else err) query'
            | inl key =>
                match QueryUnescape value with
                | inr err1 =>
                    parseQuery fuel' m (if err is None then Some err1 else err) query'
                | inl value => parseQuery fuel' (Add m key value) err query'
                end
            end
      end
  end.

(** [ParseQuery(query)] *)
Definition ParseQuery (query : string) : Values * option error :=
  parseQuery (String.length query) ∅ None query.

(** The part of [url.URL] the package reads. *)
Record URL := { RawQuery : string }.

(** [u.Query()]: the parsed query, malformed pairs silently dropped. *)
Definition Query (u : URL) : Values := (ParseQuery (RawQuery u)).1.

End URL.

(** ** strconv and fmt *)

Module Strconv.
Import Bytes.

Definition maxUint64 : Z := 2 ^ 64 - 1.

Inductive NumError := ErrSyntax | ErrRange.

(** The digit loop of [ParseUint(s, 10, 64)] from the accumulator [n]. *)
Fixpoint parseDigits (s : string) (n : Z) : Z + NumError :=
  match s with
  | "" => inl n
  | String c s' =>
      if URL.between "0" "9" c then
        let n1 := n * 10 + (byte_of_ascii c - byte_of_ascii "0") in
        if maxUint64 <? n1 then inr ErrRange else parseDigits s' n1
      else inr ErrSyntax
  end.

Definition ParseUint (s : string) : Z + NumError :=
  match s with
  | "" => inr ErrSyntax
  | _ => parseDigits s 0
  end.

(** [ParseInt(s, 10, 64)] *)
Definition ParseInt (s : string) : Z + NumError :=
  match s with
  | "" => inr ErrSyntax
  | String c s' =>
      let neg := bool_decide (c = "-"%char) in
      let s1 := if decide (c = "+"%char) then s' else if neg then s' else s in
      match ParseUint s1 with
      | inr ErrSyntax => inr ErrSyntax
      | inr ErrRange => inr ErrRange
      | inl un =>
          let cutoff := 2 ^ 63 in
          if negb neg && (cutoff <=? un) then inr ErrRange
          else if neg && (cutoff <? un) then inr ErrRange
          else inl (if neg then - un else un)
      end
  end.

End Strconv.

Module Fmt.
Import Bytes.

Definition digit (d : Z) : ascii := ascii_of_byte (byte_of_ascii "0" + d).

(** Decimal digits of [n >= 0], most significant first, prepended to
    [acc]; [fuel] bounds the number of digits. *)
Fixpoint formatBits (fuel : nat) (n : Z) (acc : string) : string :=
  match fuel with
  | O => acc
  | S fuel' =>
      let acc' := String (digit (n mod 10)) acc in
      if n / 10 =? 0 then acc' else formatBits fuel' (n / 10) acc'
  end.

(** [fmt.Sprintf("%d", n)] for an [int64] (at most 19 digits). *)
Definition Sprintd (n : Z) : string :=
  if n <? 0 then String "-" (formatBits 20 (- n) "") else formatBits 20 n "".

End Fmt.

(** ** Package hancock *)

Module Int64.

Definition min : Z := - 2 ^ 63.
Definition max : Z := 2 ^ 63 - 1.

(** The value an [int64] holds after an operation whose exact result is [x]. *)
Definition wrap (x : Z) : Z := (x + 2 ^ 63) mod 2 ^ 64 - 2 ^ 63.

Definition in_range (x : Z) : Prop := min <= x <= max.

End Int64.

Module Hancock.
Import Bytes URL.

(** The parts of [http.Request] the package reads: [r.Method] and [r.URL]. *)
Record Request := { Method : string; URL : URL.URL }.

(** [type Error struct { s string; Status int }] *)
Record Error := { s : string; Status : Z }.

Definition StatusUnauthorized : Z := 401.
Definition StatusNotAcceptable : Z := 406.

(** [isValidTS], with the clock reading [now] of [time.Now().UTC().Unix()]. *)
Definition isValidTS (now : Z) (ts : string) (expireSeconds : Z) : string * bool :=
  match Strconv.ParseInt ts with
  | inl i =>
      let dur := Int64.wrap (now - i) in
      let dur := if dur <? 0 then Int64.wrap (dur * -1) else dur in
      ("expired", dur <=? Int64.wrap expireSeconds)
  | inr _ => ("invalid", false)
  end.

(** [hmac.New(sha256.New, []byte(pKey))], [hash.Write([]byte(sig))],
    [base64.URLEncoding.EncodeToString(hash.Sum(nil))] *)
Definition encHashOf (pKey sig : string) : string :=
  Base64.EncodeToString (HMAC.Sum (bytes_of_string pKey) (bytes_of_string sig)).

(** [newError(s, f, p...)] with the format already applied. *)
Definition newError (status : Z) (msg : string) : Error := {| s := msg; Status := status |}.

(** [fmt.Sprintf("%s timestamp %s", s, ts)] *)
Definition timestamp_msg (s ts : string) : string := s +:+ " timestamp " +:+ ts.

(** [fmt.Sprintf("signature mismatch `%s` != `%s`", encHash, data)] *)
Definition mismatch_msg (encHash data : string) : string :=
  "signature mismatch `" +:+ encHash +:+ "` != `" +:+ data +:+ "`".

(** [Validate]: the pair of the returned [url.Values] ([None] for nil)
    and the returned [*Error] ([None] for nil). *)
Definition Validate (now : Z) (r : Request) (pKey : string) (expireSeconds : Z)
  : option Values * option Error :=
  let v := Query (URL r) in
  let verify (_ : unit) :=
    (* Generate METHOD:QUERY_STRING string for hashing (removing data param) *)
    let data := Get v "data" in
    let v := Del v "data" in
    let sig := Method r +:+ ":" +:+ Encode v in
    (* Validate hash *)
    let encHash := encHashOf pKey sig in
    if decide (encHash <> data) then
      (None, Some (newError StatusUnauthorized (mismatch_msg encHash data)))
    else
      (* Remove remaining signature params *)
      let v := Del v "apikey" in
      let v := Del v "ts" in
      (Some v, None) in
  if decide (expireSeconds = -1) then (* Ignore expire time *)
    verify ()
  else if decide (expireSeconds = -2) then (* Disable security altogether *)
    let v := Del v "data" in
    let v := Del v "apikey" in
    let v := Del v "ts" in
    (Some v, None)
  else (* Validate expire seconds is in range *)
    let ts := Get v "ts" in
    let '(s, ok) := isValidTS now ts expireSeconds in
    if negb ok then (None, Some (newError StatusNotAcceptable (timestamp_msg s ts)))
    else verify ().

(** The loop [for k, o := range values { v[k] = o }] into a new map. *)
Definition copy_entries (values : option Values) : Values :=
  match values with
  | Some values => map_fold (fun k o v => <[k := o]> v) ∅ values
  | None => ∅
  end.

(** [SignQS]; [values] is [None] for a nil map. *)
Definition SignQS (now : Z) (method key pKey : string) (values : option Values) : string :=
  let v := copy_entries values in
  let v := Add v "apikey" key in
  let v := Add v "ts" (Fmt.Sprintd now) in
  (* Generate signature *)
  let enc := Encode v in
  let sig := method +:+ ":" +:+ enc in
  let encHash := encHashOf pKey sig in
  let v := Add v "data" encHash in
  Encode v.

(** [Sign]: a signed URL. *)
Definition Sign (now : Z) (method key pKey urlStr : string) (qs : option Values) : string :=
  urlStr +:+ "?" +:+ SignQS now method key pKey qs.

End Hancock.

(** ** Earlier revisions of the package *)

(** The revision without [SignQS] and without the [-2] switch. *)
Module Hancock0.
Import Bytes URL.
Export Hancock (Request, Method, URL, Error, s, Status, newError, isValidTS, encHashOf,
                timestamp_msg, StatusUnauthorized, StatusNotAcceptable).

(** [fmt.Sprintf("signature mismatch %s != %s", encHash, data)] *)
Definition mismatch_msg (encHash data : string) : string :=
  "signature mismatch " +:+ encHash +:+ " != " +:+ data.

Definition Validate (now : Z) (r : Request) (pKey : string) (expireSeconds : Z)
  : option Values * option Error :=
  let q := Query (URL r) in
  let verify (_ : unit) :=
    let data := Get q "data" in
    let q := Del q "data" in
    let s := Method r +:+ ":" +:+ Encode q in
    let encHash := encHashOf pKey s in
    if decide (encHash <> data) then
      (None, Some (newError StatusUnauthorized (mismatch_msg encHash data)))
    else
      let q := Del q "apikey" in
      let q := Del q "ts" in
      (Some q, None) in
  if -1 <? Int64.wrap expireSeconds then
    let ts := Get q "ts" in
    let '(s, ok) := isValidTS now ts expireSeconds in
    if negb ok then (None, Some (newError StatusNotAcceptable (timestamp_msg s ts)))
    else verify ()
  else verify ().

(** [Sign] adds to the map it is given: the result is the signed URL and
    the caller's map as the call leaves it ([None] for a nil map, which
    stays nil). *)
Definition Sign (now : Z) (method key pKey urlStr : string) (qs : option Values)
  : string * option Values :=
  let qs1 := match qs with Some qs => qs | None => ∅ end in
  let qs1 := Add qs1 "apikey" key in
  let qs1 := Add qs1 "ts" (Fmt.Sprintd now) in
  let q := Encode qs1 in
  let sig := method +:+ ":" +:+ q in
  let encHash := encHashOf pKey sig in
  (urlStr +:+ "?" +:+ q +:+ "&data=" +:+ encHash,
   match qs with Some _ => Some qs1 | None => None end).

End Hancock0.

(** The revision whose [SignQS] encodes the map it was given ([qs.Encode()])
    for the signature instead of the copy with [apikey] and [ts]. *)
Module Hancock1.
Import Bytes URL.
Export Hancock (encHashOf, copy_entries).

Definition SignQS (now : Z) (method key pKey : string) (qs : option Values) : string :=
  let values := copy_entries qs in
  let values := Add values "apikey" key in
  let values := Add values "ts" (Fmt.Sprintd now) in
  let q := Encode (match qs with Some qs => qs | None => ∅ end) in
  let sig := method +:+ ":" +:+ q in
  let encHash := encHashOf pKey sig in
  let values := Add values "data" encHash in
  Encode values.

End Hancock1.

(** * Properties of the library functions *)

Module StringFacts.
Import Strings.

Lemma str_app_nil_r (s : string) : s +:+ "" = s.
Proof. induction s as [|c s IH]; [done|]. change (String c (s +:+ "") = String c s). by rewrite IH. Qed.

Lemma str_app_cons (c : ascii) (s t : string) : String c s +:+ t = String c (s +:+ t).
Proof. reflexivity. Qed.

Lemma str_app_nil_l (s : string) : "" +:+ s = s.
Proof. reflexivity. Qed.

Lemma str_app_assoc (s t u : string) : (s +:+ t) +:+ u = s +:+ t +:+ u.
Proof. induction s as [|c s IH]; [done|]. rewrite !str_app_cons. by rewrite IH. Qed.

Lemma str_length_app (s t : string) :
  String.length (s +:+ t) = (String.length s + String.length t)%nat.
Proof. induction s as [|c s IH]; [done|]. rewrite str_app_cons. cbn. by rewrite IH. Qed.

Lemma Contains_app (s t : string) (sep : ascii) :
  Contains (s +:+ t) sep = Contains s sep || Contains t sep.
Proof.
  induction s as [|c s IH]; [done|]. rewrite str_app_cons. cbn.
  destruct (decide (c = sep)); [done|]. apply IH.
Qed.

Lemma Cut_found (s rest : string) (sep : ascii) :
  Contains s sep = false →
  Cut (s +:+ String sep rest) sep = (s, rest, true).
Proof.
  induction s as [|c s IH]; intros H.
  - rewrite str_app_nil_l. cbn. by rewrite decide_True.
  - rewrite str_app_cons. cbn in *. destruct (decide (c = sep)); [done|].
    by rewrite (IH H).
Qed.

Lemma Cut_missing (s : string) (sep : ascii) :
  Contains s sep = false → Cut s sep = (s, "", false).
Proof.
  induction s as [|c s IH]; intros H; [done|].
  cbn in *. destruct (decide (c = sep)); [done|]. by rewrite (IH H).
Qed.

(** What [Cut] leaves to be read is shorter than what it was given. *)
Lemma Cut_shorter (s : string) (sep : ascii) :
  s ≠ "" → (String.length (Cut s sep).1.2 < String.length s)%nat.
Proof.
  induction s as [|c s IH]; intros H; [done|]. cbn.
  destruct (decide (c = sep)); [cbn; lia|].
  destruct s as [|c' s']; [cbn; lia|].
  specialize (IH ltac:(done)).
  destruct (Cut (String c' s') sep) as [[b a] f]. cbn in *. lia.
Qed.

End StringFacts.

Module URLFacts.
Import Bytes Strings URL StringFacts.

(** The three bytes that structure a query: pair separator, key/value
    separator, and the refused semicolon. *)
Definition is_sep (c : ascii) : bool :=
  bool_decide (c = "&"%char) || bool_decide (c = "="%char) || bool_decide (c = ";"%char).

Fixpoint no_seps (s : string) : bool :=
  match s with
  | "" => true
  | String c s' => negb (is_sep c) && no_seps s'
  end.

(** What [QueryEscape] writes for one byte [c] that it escapes. *)
Definition hi (c : ascii) : ascii := hexchar (Z.shiftr (byte_of_ascii c) 4).
Definition lo (c : ascii) : ascii := hexchar (Z.land (byte_of_ascii c) 15).

Definition escaped_byte_ok (c : ascii) : bool :=
  ishex (hi c) && ishex (lo c)
  && bool_decide (ascii_of_byte (Z.lor (Z.shiftl (unhex (hi c)) 4) (unhex (lo c))) = c)
  && negb (is_sep (hi c)) && negb (is_sep (lo c)).

Definition plain_byte_ok (c : ascii) : bool :=
  shouldEscape c
  || (negb (is_sep c) && negb (bool_decide (c = "%"%char)) && negb (bool_decide (c = "+"%char))).

Lemma escaped_byte_ok_all (c : ascii) : escaped_byte_ok c = true.
Proof. destruct c as [[] [] [] [] [] [] [] []]; vm_compute; reflexivity. Qed.

Lemma plain_byte_ok_all (c : ascii) : plain_byte_ok c = true.
Proof. destruct c as [[] [] [] [] [] [] [] []]; vm_compute; reflexivity. Qed.

Lemma escaped_byte (c : ascii) :
  ishex (hi c) && ishex (lo c) = true
  ∧ ascii_of_byte (Z.lor (Z.shiftl (unhex (hi c)) 4) (unhex (lo c))) = c
  ∧ is_sep (hi c) = false ∧ is_sep (lo c) = false.
Proof.
  pose proof (escaped_byte_ok_all c) as H. unfold escaped_byte_ok in H.
  apply andb_prop in H as [H H5]. apply andb_prop in H as [H H4].
  apply andb_prop in H as [H H3].
  apply bool_decide_eq_true in H3. apply negb_true_iff in H4, H5. done.
Qed.

Lemma plain_byte (c : ascii) :
  shouldEscape c = false →
  is_sep c = false ∧ c ≠ "%"%char ∧ c ≠ "+"%char.
Proof.
  intros Hc. pose proof (plain_byte_ok_all c) as H. unfold plain_byte_ok in H.
  rewrite Hc in H. cbn [orb] in H.
  apply andb_prop in H as [H H3]. apply andb_prop in H as [H1 H2].
  apply negb_true_iff in H1, H2, H3.
  apply bool_decide_eq_false in H2, H3. done.
Qed.

(** Decoding undoes encoding. *)
Lemma QueryUnescape_QueryEscape (s : string) : QueryUnescape (QueryEscape s) = inl s.
Proof.
  induction s as [|c s IH]; [done|]. cbn [QueryEscape].
  destruct (decide (c = " "%char)) as [->|Hsp].
  - cbn [QueryUnescape]. rewrite decide_False by done. rewrite IH.
    by rewrite decide_True.
  - destruct (shouldEscape c) eqn:Hesc.
    + destruct (escaped_byte c) as (Hhex & Hval & _ & _).
      cbn [QueryUnescape]. rewrite decide_True by done.
      fold (hi c) (lo c). rewrite Hhex, IH, Hval. done.
    + destruct (plain_byte c Hesc) as (_ & Hpc & Hplus).
      cbn [QueryUnescape]. rewrite decide_False by done. rewrite IH.
      by rewrite decide_False.
Qed.

(** An encoded component holds none of the structuring bytes. *)
Lemma QueryEscape_no_seps (s : string) : no_seps (QueryEscape s) = true.
Proof.
  induction s as [|c s IH]; [done|]. cbn [QueryEscape].
  destruct (decide (c = " "%char)) as [->|Hsp]; [by cbn; rewrite IH|].
  destruct (shouldEscape c) eqn:Hesc.
  - destruct (escaped_byte c) as (_ & _ & Hh & Hl).
    cbn [no_seps]. fold (hi c) (lo c). rewrite Hh, Hl, IH. done.
  - destruct (plain_byte c Hesc) as (Hs & _ & _).
    cbn [no_seps]. by rewrite Hs, IH.
Qed.

Lemma no_seps_Contains (s : string) :
  no_seps s = true →
  Contains s "&" = false ∧ Contains s "=" = false ∧ Contains s ";" = false.
Proof.
  induction s as [|c s IH]; [done|]. cbn [no_seps Contains].
  intros [Hc Hs]%andb_prop. apply negb_true_iff in Hc.
  unfold is_sep in Hc. apply orb_false_elim in Hc as [Hc H3].
  apply orb_false_elim in Hc as [H1 H2].
  apply bool_decide_eq_false_1 in H1, H2, H3.
  rewrite !decide_False by done. by apply IH.
Qed.

(** *** The text [Encode] writes *)

Definition enc_pair (p : string * string) : string :=
  QueryEscape p.1 +:+ "=" +:+ QueryEscape p.2.

(** The pairs after the first, each behind its ampersand. *)
Fixpoint amp_tail (l : list (string * string)) : string :=
  match l with
  | [] => ""
  | p :: l' => "&" +:+ enc_pair p +:+ amp_tail l'
  end.

Definition joined (l : list (string * string)) : string :=
  match l with
  | [] => ""
  | p :: l' => enc_pair p +:+ amp_tail l'
  end.

(** The key/value pairs of [v] in the order of the keys [ks]. *)
Definition pairs (v : Values) (ks : list string) : list (string * string) :=
  flat_map (fun k => map (pair k) (index v k)) ks.

Definition write (buf : string) (p : string * string) : string :=
  write_pair (QueryEscape p.1) buf p.2.

Lemma enc_pair_nonempty (p : string * string) : enc_pair p ≠ "".
Proof.
  unfold enc_pair. destruct (QueryEscape p.1); [by rewrite str_app_nil_l|by rewrite str_app_cons].
Qed.

Lemma length_pos_nonempty (s : string) : s ≠ "" → (0 <? String.length s)%nat = true.
Proof. destruct s; [done|]. intros _. reflexivity. Qed.

Lemma fold_write_nonempty (l : list (string * string)) (buf : string) :
  buf ≠ "" → fold_left write l buf = buf +:+ amp_tail l.
Proof.
  revert buf. induction l as [|p l IH]; intros buf Hbuf.
  - cbn. by rewrite str_app_nil_r.
  - cbn [fold_left amp_tail]. rewrite IH.
    + unfold write, write_pair. rewrite (length_pos_nonempty _ Hbuf).
      fold (enc_pair p). by rewrite !str_app_assoc.
    + unfold write, write_pair. rewrite (length_pos_nonempty _ Hbuf).
      destruct buf; [done|]. by rewrite !str_app_cons.
Qed.

Lemma fold_write_empty (l : list (string * string)) : fold_left write l "" = joined l.
Proof.
  destruct l as [|p l]; [done|]. cbn [fold_left joined].
  assert (write "" p = enc_pair p) as -> by reflexivity.
  apply fold_write_nonempty, enc_pair_nonempty.
Qed.

Lemma fold_write_pairs (v : Values) (ks : list string) (buf : string) :
  fold_left (fun buf k => fold_left (write_pair (QueryEscape k)) (index v k) buf) ks buf
  = fold_left write (pairs v ks) buf.
Proof.
  revert buf. induction ks as [|k ks IH]; intros buf; [done|].
  cbn [fold_left pairs flat_map]. rewrite fold_left_app. fold (pairs v ks).
  rewrite IH. f_equal.
  generalize (index v k). intros xs. revert buf.
  induction xs as [|x xs IHx]; intros buf; [done|]. cbn. by rewrite IHx.
Qed.

(** [Encode] writes the escaped pairs of the sorted keys, joined by [&]. *)
Lemma Encode_joined (v : Values) : Encode v = joined (pairs v (sorted_keys v)).
Proof.
  unfold Encode. destruct (size v =? 0)%nat eqn:Hsz.
  - apply Nat.eqb_eq, map_size_empty_iff in Hsz. subst v.
    unfold sorted_keys. by rewrite map_to_list_empty.
  - by rewrite fold_write_pairs, fold_write_empty.
Qed.

(** *** Reading back what [Encode] wrote *)

Definition add_pair (m : Values) (p : string * string) : Values := Add m p.1 p.2.

Lemma enc_pair_Contains (p : string * string) :
  Contains (enc_pair p) "&" = false ∧ Contains (enc_pair p) ";" = false.
Proof.
  destruct (no_seps_Contains _ (QueryEscape_no_seps p.1)) as (H1 & _ & H2).
  destruct (no_seps_Contains _ (QueryEscape_no_seps p.2)) as (H3 & _ & H4).
  unfold enc_pair. rewrite !Contains_app, H1, H2, H3, H4. done.
Qed.

(** One iteration of the loop of [parseQuery] on a pair [Encode] wrote. *)
Lemma parseQuery_segment fuel (m : Values) err (q rest : string) (found : bool)
    (p : string * string) :
  Cut q "&" = (enc_pair p, rest, found) →
  parseQuery (S fuel) m err q = parseQuery fuel (add_pair m p) err rest.
Proof.
  intros Hcut. destruct q as [|c q].
  { cbn in Hcut. injection Hcut as Hp _ _. by destruct (enc_pair_nonempty p). }
  cbn [parseQuery]. rewrite Hcut.
  destruct (enc_pair_Contains p) as [_ ->].
  rewrite decide_False by apply enc_pair_nonempty.
  destruct (no_seps_Contains _ (QueryEscape_no_seps p.1)) as (_ & Heq & _).
  change (enc_pair p) with (QueryEscape p.1 +:+ String "=" (QueryEscape p.2)).
  rewrite (Cut_found _ _ _ Heq).
  by rewrite !QueryUnescape_QueryEscape.
Qed.

Lemma parseQuery_empty fuel (m : Values) err : parseQuery fuel m err "" = (m, err).
Proof. by destruct fuel. Qed.

Lemma parseQuery_amp_tail (l : list (string * string)) fuel (m : Values) err
    (p : string * string) :
  (length l < fuel)%nat →
  parseQuery fuel m err (enc_pair p +:+ amp_tail l) = (fold_left add_pair (p :: l) m, err).
Proof.
  revert fuel m p. induction l as [|q l IH]; intros fuel m p Hfuel.
  - destruct fuel as [|fuel]; [cbn in Hfuel; lia|].
    cbn [amp_tail]. rewrite str_app_nil_r.
    rewrite (parseQuery_segment _ _ _ _ "" false p).
    + by rewrite parseQuery_empty.
    + apply Cut_missing, enc_pair_Contains.
  - destruct fuel as [|fuel]; [cbn in Hfuel; lia|].
    change (amp_tail (q :: l)) with (String "&" (enc_pair q +:+ amp_tail l)).
    rewrite (parseQuery_segment _ _ _ _ (enc_pair q +:+ amp_tail l) true p).
    + rewrite IH by (cbn in Hfuel; lia). done.
    + apply Cut_found, enc_pair_Contains.
Qed.

Lemma length_amp_tail (l : list (string * string)) :
  (length l <= String.length (amp_tail l))%nat.
Proof.
  induction l as [|p l IH]; [done|]. cbn [amp_tail length].
  rewrite !str_length_app. cbn. lia.
Qed.

Lemma ParseQuery_joined (l : list (string * string)) :
  ParseQuery (joined l) = (fold_left add_pair l ∅, None).
Proof.
  unfold ParseQuery. destruct l as [|p l]; [done|]. cbn [joined].
  apply parseQuery_amp_tail. rewrite str_length_app.
  pose proof (length_amp_tail l). pose proof (enc_pair_nonempty p) as Hp.
  destruct (enc_pair p); [done|]. cbn. lia.
Qed.

(** The loop of [parseQuery] never stops for lack of [fuel]: beyond the
    length of the query, more fuel changes nothing. *)
Lemma parseQuery_fuel (q : string) fuel (m : Values) err :
  (String.length q <= fuel)%nat →
  parseQuery fuel m err q = parseQuery (String.length q) m err q.
Proof.
  remember (String.length q) as n eqn:Hn. revert q Hn fuel m err.
  induction n as [n IH] using lt_wf_ind. intros q -> fuel m err Hfuel.
  destruct q as [|c q]; [by rewrite !parseQuery_empty|].
  destruct fuel as [|fuel]; [cbn in Hfuel; lia|].
  pose proof (Cut_shorter (String c q) "&" ltac:(done)) as Hcut.
  cbn [String.length] in *. cbn [parseQuery].
  destruct (Cut (String c q) "&") as [[key query'] found]. cbn [fst snd] in Hcut.
  assert (∀ m err, parseQuery fuel m err query'
                   = parseQuery (String.length q) m err query') as Hrec.
  { intros m' err'.
    rewrite (IH (String.length query') ltac:(lia) query' eq_refl fuel) by lia.
    by rewrite (IH (String.length query') ltac:(lia) query' eq_refl (String.length q)) by lia. }
  destruct (Contains key ";"); [apply Hrec|].
  destruct (decide (key = "")); [apply Hrec|].
  destruct (Cut key "=") as [[k x] ?].
  destruct (QueryUnescape k); [|apply Hrec].
  destruct (QueryUnescape x); apply Hrec.
Qed.

(** *** The map the pairs rebuild *)

Lemma index_insert (m : Values) (k j : string) (xs : list string) :
  index (<[k := xs]> m) j = if decide (k = j) then xs else index m j.
Proof. unfold index. rewrite lookup_insert. by case_decide. Qed.

Lemma index_lookup_None (m : Values) (k : string) : m !! k = None → index m k = [].
Proof. unfold index. by intros ->. Qed.

Lemma fold_add_key (xs : list string) (m : Values) (k : string) :
  fold_left add_pair (map (pair k) xs) m
  = match xs with [] => m | _ => <[k := index m k ++ xs]> m end.
Proof.
  revert m. induction xs as [|x xs IH]; intros m; [done|].
  cbn [map fold_left]. rewrite IH. unfold add_pair, Add. cbn [fst snd].
  destruct xs as [|y xs]; [done|].
  rewrite index_insert, decide_True by done.
  by rewrite insert_insert_eq, <-(assoc_L (++)).
Qed.

Lemma lookup_fold_pairs (v : Values) (ks : list string) (m : Values) (j : string) :
  NoDup ks → (∀ k, k ∈ ks → m !! k = None) →
  fold_left add_pair (pairs v ks) m !! j
  = if decide (j ∈ ks ∧ index v j ≠ []) then Some (index v j) else m !! j.
Proof.
  revert m. induction ks as [|k ks IH]; intros m Hnd Hfresh.
  { cbn. rewrite decide_False; [done|]. intros [H _]. by apply elem_of_nil in H. }
  apply NoDup_cons in Hnd as [Hk Hnd].
  cbn [pairs flat_map]. rewrite fold_left_app. fold (pairs v ks).
  rewrite fold_add_key.
  rewrite (index_lookup_None m k) by (apply Hfresh; left).
  rewrite IH; [|done|].
  - destruct (decide (j = k)) as [->|Hjk].
    + rewrite (decide_False (P := k ∈ ks ∧ _)) by (by intros [? _]).
      destruct (index v k) as [|x xs] eqn:Hv.
      * rewrite decide_False by (by intros [_ ?]). done.
      * rewrite decide_True by (split; [left|done]). by rewrite lookup_insert_eq.
    + assert (m !! j = match index v k with [] => m | _ => <[k := [] ++ index v k]> m end !! j)
        as <-.
      { destruct (index v k); [done|]. by rewrite lookup_insert_ne. }
      apply decide_ext. rewrite elem_of_cons. split; intros [? ?]; split; tauto.
  - intros k' Hk'. assert (k' ≠ k) by (intros ->; done).
    destruct (index v k); [apply Hfresh; by right|].
    rewrite lookup_insert_ne by done. apply Hfresh. by right.
Qed.

Lemma sorted_keys_elem (v : Values) (k : string) : k ∈ sorted_keys v ↔ is_Some (v !! k).
Proof.
  unfold sorted_keys. rewrite merge_sort_Permutation, list_elem_of_fmap. split.
  - intros ([k' xs] & -> & H%elem_of_map_to_list). by exists xs.
  - intros [xs H]. exists (k, xs). split; [done|]. by apply elem_of_map_to_list.
Qed.

Lemma sorted_keys_NoDup (v : Values) : NoDup (sorted_keys v).
Proof. unfold sorted_keys. rewrite merge_sort_Permutation. apply NoDup_fst_map_to_list. Qed.

(** The keys are written in ascending byte-wise order. *)
Lemma sorted_keys_Sorted (v : Values) : StronglySorted String.le (sorted_keys v).
Proof. apply StronglySorted_merge_sort; apply _. Qed.

(** Every key has at least one value. *)
Definition nonempty_values (v : Values) : Prop := map_Forall (fun _ xs => xs ≠ []) v.

#[global] Instance nonempty_values_dec (v : Values) : Decision (nonempty_values v).
Proof. unfold nonempty_values. apply _. Defined.

(** Parsing an encoded map gives the map back, without the keys that have
    no value (for which [Encode] writes nothing). *)
Theorem ParseQuery_Encode (v : Values) :
  ParseQuery (Encode v) = (filter (fun kv => kv.2 ≠ []) v, None).
Proof.
  rewrite Encode_joined, ParseQuery_joined. f_equal.
  apply map_eq. intros j.
  rewrite lookup_fold_pairs; [|apply sorted_keys_NoDup|intros; apply lookup_empty].
  rewrite map_lookup_filter.
  destruct (v !! j) as [xs|] eqn:Hj; cbn.
  - destruct xs as [|x xs].
    + rewrite decide_False by (unfold index; rewrite Hj; by intros [_ ?]).
      by rewrite option_guard_False by (by intros ?).
    + rewrite decide_True
        by (split; [apply sorted_keys_elem; by eexists|unfold index; by rewrite Hj]).
      rewrite option_guard_True by done. unfold index. by rewrite Hj.
  - rewrite decide_False; [done|].
    intros [H%sorted_keys_elem _]. rewrite Hj in H. by destruct H.
Qed.

Lemma index_filter_nonempty (v : Values) (k : string) :
  index (filter (fun kv => kv.2 ≠ []) v) k = index v k.
Proof.
  unfold index. rewrite map_lookup_filter.
  destruct (v !! k) as [[|x xs]|]; cbn; [done| |done].
  by rewrite option_guard_True.
Qed.

(** [u.Query()] of an encoded map has the values of the map under every key. *)
Lemma index_Query_Encode (v : Values) (k : string) :
  index (Query {| RawQuery := Encode v |}) k = index v k.
Proof.
  unfold Query. cbn [RawQuery]. rewrite ParseQuery_Encode. apply index_filter_nonempty.
Qed.

Corollary Query_Encode (v : Values) :
  nonempty_values v → Query {| RawQuery := Encode v |} = v.
Proof.
  intros Hv. unfold Query. cbn [RawQuery]. rewrite ParseQuery_Encode. cbn [fst].
  apply map_eq. intros j. rewrite map_lookup_filter.
  destruct (v !! j) as [xs|] eqn:Hj; [|done]. cbn.
  by rewrite option_guard_True by (by apply (Hv j)).
Qed.

End URLFacts.

Module NumFacts.
Import Bytes URL Strconv Fmt StringFacts.

Lemma digit_spec (d : Z) :
  0 <= d < 10 →
  between "0" "9" (digit d) = true
  ∧ byte_of_ascii (digit d) - byte_of_ascii "0" = d
  ∧ shouldEscape (digit d) = false
  ∧ digit d ≠ "+"%char ∧ digit d ≠ "-"%char.
Proof.
  intros Hd.
  assert (d = 0 ∨ d = 1 ∨ d = 2 ∨ d = 3 ∨ d = 4 ∨ d = 5 ∨ d = 6 ∨ d = 7 ∨ d = 8 ∨ d = 9)
    as Hcases by lia.
  repeat (destruct Hcases as [->|Hcases]); try subst d; by vm_compute.
Qed.

(** Reading the digits [formatBits] wrote gives the number back. *)
Lemma parseDigits_formatBits (fuel : nat) (n : Z) (acc : string) :
  0 <= n <= maxUint64 → n < 10 ^ Z.of_nat fuel →
  parseDigits (formatBits fuel n acc) 0 = parseDigits acc n.
Proof.
  revert n acc. induction fuel as [|fuel IH]; intros n acc Hn Hlt.
  { cbn in Hlt. assert (n = 0) as -> by lia. done. }
  cbn [formatBits].
  assert (0 <= n mod 10 < 10) as Hd by (apply Z.mod_pos_bound; lia).
  destruct (digit_spec _ Hd) as (Hbetween & Hval & _).
  pose proof (Z.div_mod n 10 ltac:(lia)) as Hdm.
  destruct (n / 10 =? 0) eqn:Hq.
  - apply Z.eqb_eq in Hq. cbn [parseDigits]. rewrite Hbetween, Hval.
    replace (0 * 10 + n mod 10) with n by lia.
    destruct (maxUint64 <? n) eqn:Hmax; [apply Z.ltb_lt in Hmax; lia|done].
  - rewrite IH.
    + cbn [parseDigits]. rewrite Hbetween, Hval.
      replace (n / 10 * 10 + n mod 10) with n by lia.
      destruct (maxUint64 <? n) eqn:Hmax; [apply Z.ltb_lt in Hmax; lia|done].
    + pose proof (Z.div_pos n 10). lia.
    + rewrite Nat2Z.inj_succ, Z.pow_succ_r in Hlt by lia.
      apply Z.div_lt_upper_bound; lia.
Qed.

(** The text [formatBits] writes starts with a digit. *)
Lemma formatBits_head (fuel : nat) (n : Z) (acc : string) :
  fuel ≠ O → 0 <= n →
  ∃ d rest, 0 <= d < 10 ∧ formatBits fuel n acc = String (digit d) rest.
Proof.
  revert n acc. induction fuel as [|fuel IH]; intros n acc Hf Hn; [done|].
  cbn [formatBits].
  assert (0 <= n mod 10 < 10) as Hd by (apply Z.mod_pos_bound; lia).
  destruct (n / 10 =? 0); [by eauto|].
  destruct fuel as [|fuel]; [by cbn; eauto|].
  apply IH; [done|]. apply Z.div_pos; lia.
Qed.

(** [strconv.ParseInt] reads back what [%d] printed, for every [int64]. *)
Lemma ParseInt_Sprintd (n : Z) : Int64.in_range n → ParseInt (Sprintd n) = inl n.
Proof.
  unfold Int64.in_range, Int64.min, Int64.max. intros Hn. unfold Sprintd.
  destruct (n <? 0) eqn:Hneg.
  - apply Z.ltb_lt in Hneg.
    destruct (formatBits_head 20 (- n) "" ltac:(done) ltac:(lia)) as (d & rest & Hd & Heq).
    unfold ParseInt. rewrite bool_decide_eq_true_2 by done.
    rewrite decide_False by done. unfold ParseUint.
    rewrite Heq, <-Heq. rewrite parseDigits_formatBits.
    + cbn [parseDigits negb andb].
      destruct (2 ^ 63 <? - n) eqn:Hc; [apply Z.ltb_lt in Hc; lia|].
      f_equal. lia.
    + unfold maxUint64. lia.
    + change (10 ^ Z.of_nat 20) with 100000000000000000000. lia.
  - apply Z.ltb_ge in Hneg.
    destruct (formatBits_head 20 n "" ltac:(done) ltac:(lia)) as (d & rest & Hd & Heq).
    destruct (digit_spec _ Hd) as (_ & _ & _ & Hplus & Hminus).
    unfold ParseInt. rewrite Heq.
    rewrite bool_decide_eq_false_2 by done. rewrite decide_False by done.
    unfold ParseUint. rewrite <-Heq. rewrite parseDigits_formatBits.
    + cbn [parseDigits negb andb].
      destruct (2 ^ 63 <=? n) eqn:Hc; [apply Z.leb_le in Hc; lia|done].
    + unfold maxUint64. lia.
    + change (10 ^ Z.of_nat 20) with 100000000000000000000. lia.
Qed.

(** Text made of unreserved bytes is left alone by [QueryEscape]. *)
Fixpoint unreserved (s : string) : bool :=
  match s with
  | "" => true
  | String c s' => negb (shouldEscape c) && unreserved s'
  end.

Lemma QueryEscape_unreserved (s : string) : unreserved s = true → QueryEscape s = s.
Proof.
  induction s as [|c s IH]; [done|]. cbn [unreserved QueryEscape].
  intros [Hc Hs]%andb_prop. apply negb_true_iff in Hc.
  destruct (decide (c = " "%char)) as [->|_]; [done|].
  by rewrite Hc, IH.
Qed.

Lemma unreserved_formatBits (fuel : nat) (n : Z) (acc : string) :
  0 <= n → unreserved (formatBits fuel n acc) = unreserved acc.
Proof.
  revert n acc. induction fuel as [|fuel IH]; intros n acc Hn; [done|].
  cbn [formatBits].
  assert (0 <= n mod 10 < 10) as Hd by (apply Z.mod_pos_bound; lia).
  destruct (digit_spec _ Hd) as (_ & _ & Hesc & _).
  destruct (n / 10 =? 0).
  - cbn [unreserved]. by rewrite Hesc.
  - rewrite IH by (apply Z.div_pos; lia). cbn [unreserved]. by rewrite Hesc.
Qed.

Lemma QueryEscape_Sprintd (n : Z) : QueryEscape (Sprintd n) = Sprintd n.
Proof.
  apply QueryEscape_unreserved. unfold Sprintd.
  destruct (n <? 0) eqn:Hneg.
  - apply Z.ltb_lt in Hneg. cbn [unreserved].
    rewrite unreserved_formatBits by lia. done.
  - apply Z.ltb_ge in Hneg. by rewrite unreserved_formatBits.
Qed.

Lemma wrap_in_range (x : Z) : Int64.in_range x → Int64.wrap x = x.
Proof.
  unfold Int64.in_range, Int64.min, Int64.max, Int64.wrap. intros Hx.
  rewrite Z.mod_small; lia.
Qed.

Lemma wrap_range (x : Z) : Int64.in_range (Int64.wrap x).
Proof.
  unfold Int64.in_range, Int64.min, Int64.max, Int64.wrap.
  pose proof (Z.mod_pos_bound (x + 2 ^ 63) (2 ^ 64) ltac:(lia)). lia.
Qed.

End NumFacts.

(** * Properties of the package *)

Module HancockFacts.
Import Bytes URL Hancock StringFacts URLFacts NumFacts.

(** The result [Validate] returns when it accepts the parsed query [v]. *)
Definition stripped (v : Values) : Values := Del (Del (Del v "data") "apikey") "ts".

(** The signature [Validate] recomputes for the request [r]. *)
Definition recomputed (r : Request) (pKey : string) : string :=
  encHashOf pKey (Method r +:+ ":" +:+ Encode (Del (Query (URL r)) "data")).

(** [Validate] by cases, in the order in which the checks are made. *)
Lemma Validate_cases (now : Z) (r : Request) (pKey : string) (W : Z) :
  Validate now r pKey W =
    let v := Query (URL r) in
    let ts := Get v "ts" in
    let data := Get v "data" in
    if decide (W = -2) then (Some (stripped v), None)
    else if decide (W ≠ -1 ∧ (isValidTS now ts W).2 = false) then
      (None, Some (newError StatusNotAcceptable (timestamp_msg (isValidTS now ts W).1 ts)))
    else if decide (recomputed r pKey = data) then (Some (stripped v), None)
    else (None, Some (newError StatusUnauthorized (mismatch_msg (recomputed r pKey) data))).
Proof.
  unfold Validate, recomputed, stripped. cbv zeta.
  generalize (encHashOf pKey (Method r +:+ ":" +:+ Encode (Del (Query (URL r)) "data"))).
  generalize (Get (Query (URL r)) "data"). intros d e.
  destruct (isValidTS now (Get (Query (URL r)) "ts") W) as [reason ok].
  cbn [fst snd]. destruct ok; cbn [negb];
    repeat case_decide; try done; try lia; exfalso; intuition (congruence || lia).
Qed.

Lemma copy_entries_default (values : option Values) :
  copy_entries values = default ∅ values.
Proof.
  destruct values as [v|]; [|done]. cbn.
  by apply (map_fold_weak_ind (fun (r m : Values) => r = m)); [|intros; subst].
Qed.

(** None of the reserved keys [apikey], [ts], [data] is a key of [v]. *)
Definition no_envelope (v : Values) : Prop :=
  v !! "apikey" = None ∧ v !! "ts" = None ∧ v !! "data" = None.

#[global] Instance no_envelope_dec (v : Values) : Decision (no_envelope v).
Proof. unfold no_envelope. apply _. Defined.

(** The map [SignQS] encodes for the signature. *)
Definition to_sign (now : Z) (key : string) (values : option Values) : Values :=
  Add (Add (copy_entries values) "apikey" key) "ts" (Fmt.Sprintd now).

(** The text [SignQS] signs. *)
Definition canonical (now : Z) (method key : string) (values : option Values) : string :=
  method +:+ ":" +:+ Encode (to_sign now key values).

Lemma SignQS_eq now method key pKey values :
  SignQS now method key pKey values
  = Encode (Add (to_sign now key values) "data"
                (encHashOf pKey (canonical now method key values))).
Proof. reflexivity. Qed.

Lemma nonempty_values_Add (v : Values) (k x : string) :
  nonempty_values v → nonempty_values (Add v k x).
Proof.
  intros Hv j xs. unfold Add. rewrite lookup_insert. case_decide.
  - intros [= <-]. by destruct (index v k).
  - apply Hv.
Qed.

Lemma Get_Add_fresh (v : Values) (k x : string) : v !! k = None → Get (Add v k x) k = x.
Proof.
  intros Hk. unfold Get, Add. rewrite index_insert, decide_True by done.
  by rewrite (index_lookup_None v k Hk).
Qed.

Lemma Get_Add_ne (v : Values) (k j x : string) : k ≠ j → Get (Add v k x) j = Get v j.
Proof. intros Hk. unfold Get, Add. by rewrite index_insert, decide_False. Qed.

Lemma Del_Add_fresh (v : Values) (k x : string) : v !! k = None → Del (Add v k x) k = v.
Proof. intros Hk. unfold Del, Add. rewrite delete_insert_eq. by apply delete_id. Qed.

Lemma Del_Add_ne (v : Values) (k j x : string) :
  k ≠ j → Del (Add v k x) j = Add (Del v j) k x.
Proof.
  intros Hk. unfold Del, Add, index.
  by rewrite delete_insert_ne, lookup_delete_ne by done.
Qed.

Lemma lookup_Add_ne (v : Values) (k j x : string) : k ≠ j → Add v k x !! j = v !! j.
Proof. intros Hk. unfold Add. by rewrite lookup_insert_ne. Qed.

(** Inside the window the timestamp check passes. *)
Lemma isValidTS_fresh (now i W : Z) (ts : string) :
  Strconv.ParseInt ts = inl i →
  Int64.in_range now → Int64.in_range W → Z.abs (now - i) <= W →
  isValidTS now ts W = ("expired", true).
Proof.
  unfold isValidTS. intros -> Hnow HW Habs.
  rewrite (wrap_in_range W HW).
  assert (Int64.in_range (now - i)) as Hd
    by (unfold Int64.in_range, Int64.min, Int64.max in *; lia).
  rewrite (wrap_in_range _ Hd).
  destruct (now - i <? 0) eqn:Hneg.
  - apply Z.ltb_lt in Hneg. rewrite wrap_in_range
      by (unfold Int64.in_range, Int64.min, Int64.max in *; lia).
    f_equal. apply Z.leb_le. lia.
  - apply Z.ltb_ge in Hneg. f_equal. apply Z.leb_le. lia.
Qed.

End HancockFacts.

Import Bytes URL Hancock StringFacts URLFacts NumFacts HancockFacts.

(** ** Signing, then validating *)

(** A request with the method [method] and the raw query [query]. *)
Definition request (method query : string) : Request :=
  {| Method := method; URL := {| RawQuery := query |} |}.

(** What [SignQS] hands to [Encode] parses back as itself. *)
Lemma Query_SignQS (now : Z) (method key pKey : string) (values : option Values) :
  nonempty_values (default ∅ values) →
  Query {| RawQuery := SignQS now method key pKey values |}
  = Add (to_sign now key values) "data" (encHashOf pKey (canonical now method key values)).
Proof.
  intros Hv. rewrite SignQS_eq. apply Query_Encode.
  unfold to_sign. rewrite copy_entries_default. by repeat apply nonempty_values_Add.
Qed.

Lemma to_sign_lookup (now : Z) (key : string) (values : option Values) :
  no_envelope (default ∅ values) →
  to_sign now key values !! "data" = None
  ∧ Get (to_sign now key values) "ts" = Fmt.Sprintd now
  ∧ Del (Del (to_sign now key values) "apikey") "ts" = default ∅ values.
Proof.
  intros (Hk & Ht & Hd). unfold to_sign. rewrite copy_entries_default.
  split; [by rewrite !lookup_Add_ne|]. split.
  - apply Get_Add_fresh. by rewrite lookup_Add_ne.
  - rewrite Del_Add_ne by done.
    rewrite (Del_Add_fresh (default ∅ values) "apikey") by done.
    by apply Del_Add_fresh.
Qed.

(** C1 (as amended): for every method, public key, secret key and parameter
    set that holds none of the keys [apikey], [ts], [data] and gives every
    key at least one value, a query signed by [SignQS] at time [now_s] and
    validated with the same secret key at time [now], under a window [W]
    with [|now - now_s| <= W], is accepted without error and [Validate]
    returns exactly the original parameter set. *)
Theorem round_trip (now_s now W : Z) (method key pKey : string) (values : option Values) :
  Int64.in_range now_s → Int64.in_range now → Int64.in_range W →
  Z.abs (now - now_s) <= W →
  no_envelope (default ∅ values) → nonempty_values (default ∅ values) →
  Validate now (request method (SignQS now_s method key pKey values)) pKey W
  = (Some (default ∅ values), None).
Proof.
  intros Hs Hnow HW Habs Henv Hne.
  destruct (to_sign_lookup now_s key values Henv) as (Hdata & Hts & Hdel).
  rewrite Validate_cases. unfold recomputed. cbn [request URL Method].
  rewrite Query_SignQS by done. cbv zeta.
  rewrite decide_False by lia.
  rewrite Get_Add_ne, Hts by done.
  rewrite (isValidTS_fresh now now_s W) by auto using ParseInt_Sprintd.
  rewrite (decide_False (P := _ ∧ _)) by (by intros [_ ?]).
  rewrite Get_Add_fresh, Del_Add_fresh by done.
  rewrite decide_True by done.
  unfold stripped. by rewrite Del_Add_fresh, Hdel.
Qed.

Lemma round_trip_witness :
  Validate 1700000005
    (request "GET" (SignQS 1700000000 "GET" "pub1" "s3cr3t" (Some {["foo" := ["bar"]]})))
    "s3cr3t" 5
  = (Some {["foo" := ["bar"]]}, None).
Proof.
  refine (round_trip 1700000000 1700000005 5 "GET" "pub1" "s3cr3t"
            (Some {["foo" := ["bar"]]}) _ _ _ _ _ _);
    try (unfold Int64.in_range, Int64.min, Int64.max; lia);
    apply (bool_decide_unpack _); vm_compute; exact I.
Defined.

(** C1 (as stated) fails for a parameter set with the key [data]: the
    caller's value comes first under that key, [Validate] compares the
    recomputed signature with it and reports a mismatch. *)
Lemma round_trip_counterexample :
  Validate 1700000000
    (request "GET" (SignQS 1700000000 "GET" "pub1" "s3cr3t" (Some {["data" := ["x"]]})))
    "s3cr3t" 60
  = (None,
     Some {| s := "signature mismatch `L9xbbifVCZsb5N_KMMlaCqOJj5CzV8B2twOoy7cusFc=` != `x`";
             Status := 401 |}).
Proof. vm_compute. reflexivity. Qed.

(** ** The signed query *)

(** The parameters of the scenario [{"foo": "bar"}]. *)
Definition foo_bar : option Values := Some {["foo" := ["bar"]]}.

Lemma scenario_pairs_signed (t m : string) :
  let v := Add (Add (Add (copy_entries foo_bar) "apikey" "pub1") "ts" t) "data" m in
  pairs v (sorted_keys v) = [("apikey", "pub1"); ("data", m); ("foo", "bar"); ("ts", t)].
Proof. vm_compute. reflexivity. Qed.

Lemma scenario_pairs_to_sign (t : string) :
  let v := Add (Add (copy_entries foo_bar) "apikey" "pub1") "ts" t in
  pairs v (sorted_keys v) = [("apikey", "pub1"); ("foo", "bar"); ("ts", t)].
Proof. vm_compute. reflexivity. Qed.

Lemma scenario_Encode_to_sign (T : Z) :
  Encode (Add (Add (copy_entries foo_bar) "apikey" "pub1") "ts" (Fmt.Sprintd T))
  = "apikey=pub1&foo=bar&ts=" +:+ Fmt.Sprintd T.
Proof.
  rewrite Encode_joined, scenario_pairs_to_sign.
  cbn [joined amp_tail]. unfold enc_pair. cbn [fst snd].
  rewrite QueryEscape_Sprintd, !str_app_assoc, str_app_nil_r. reflexivity.
Qed.

Lemma scenario_Encode_signed (T : Z) (m : string) :
  Encode (Add (Add (Add (copy_entries foo_bar) "apikey" "pub1") "ts" (Fmt.Sprintd T)) "data" m)
  = "apikey=pub1&data=" +:+ QueryEscape m +:+ "&foo=bar&ts=" +:+ Fmt.Sprintd T.
Proof.
  rewrite Encode_joined, scenario_pairs_signed.
  cbn [joined amp_tail]. unfold enc_pair. cbn [fst snd].
  rewrite QueryEscape_Sprintd, !str_app_assoc, str_app_nil_r. reflexivity.
Qed.

Lemma foo_bar_no_envelope : no_envelope (default ∅ foo_bar).
Proof. apply (bool_decide_unpack _). vm_compute. exact I. Qed.

Lemma foo_bar_nonempty : nonempty_values (default ∅ foo_bar).
Proof. apply (bool_decide_unpack _). vm_compute. exact I. Qed.

Lemma scenario_text (t : string) :
  "GET" +:+ ":" +:+ "apikey=pub1&foo=bar&ts=" +:+ t = "GET:apikey=pub1&foo=bar&ts=" +:+ t.
Proof. reflexivity. Qed.

(** C2: the query [SignQS] returns is the encoding of the parameters with
    [apikey], [ts] and a [data] field added, where [data] is
    base64url(HMAC-SHA256(secretKey, method + ":" + E)) and [E] is the
    query encoding of the parameters plus [apikey] and [ts]: the escaped
    [key=value] pairs joined by [&], keys in ascending order. Parsed back,
    the last value under [data] is that signature. For ["GET"],
    [{"foo": "bar"}], ["pub1"], ["s3cr3t"] at time [T] the signed text is
    ["GET:apikey=pub1&foo=bar&ts=T"]; [SignQS] returns the fields
    [apikey=pub1], [data], [foo=bar], [ts=T] in key order, and the earlier
    [Sign] returns [url?apikey=pub1&foo=bar&ts=T&data=...]. *)
Theorem SignQS_canonical_form (now : Z) (method key pKey : string) (values : option Values) :
  let signed := Add (Add (copy_entries values) "apikey" key) "ts" (Fmt.Sprintd now) in
  let E := Encode signed in
  let mac (secret text : string) :=
    Base64.EncodeToString (HMAC.Sum (bytes_of_string secret) (bytes_of_string text)) in
  (E = joined (pairs signed (sorted_keys signed))
   ∧ StronglySorted String.le (sorted_keys signed)
   ∧ sorted_keys signed ≡ₚ (map_to_list signed).*1)
  ∧ SignQS now method key pKey values = Encode (Add signed "data" (mac pKey (method +:+ ":" +:+ E)))
  ∧ last (index (Query {| RawQuery := SignQS now method key pKey values |}) "data")
    = Some (mac pKey (method +:+ ":" +:+ E))
  ∧ (∀ T : Z,
       let text := "GET:apikey=pub1&foo=bar&ts=" +:+ Fmt.Sprintd T in
       let q := SignQS T "GET" "pub1" "s3cr3t" foo_bar in
       q = "apikey=pub1&data=" +:+ QueryEscape (mac "s3cr3t" text)
             +:+ "&foo=bar&ts=" +:+ Fmt.Sprintd T
       ∧ Get (Query {| RawQuery := q |}) "data" = mac "s3cr3t" text
       ∧ Encode (Del (Query {| RawQuery := q |}) "data")
         = "apikey=pub1&foo=bar&ts=" +:+ Fmt.Sprintd T
       ∧ ∀ urlStr : string,
           (Hancock0.Sign T "GET" "pub1" "s3cr3t" urlStr foo_bar).1
           = urlStr +:+ "?" +:+ ("apikey=pub1&foo=bar&ts=" +:+ Fmt.Sprintd T)
               +:+ "&data=" +:+ mac "s3cr3t" text).
Proof.
  cbv zeta.
  repeat change (Base64.EncodeToString (HMAC.Sum (bytes_of_string ?a) (bytes_of_string ?b)))
    with (encHashOf a b).
  split; [|split; [|split]].
  - split; [apply Encode_joined|]. split; [apply sorted_keys_Sorted|].
    apply merge_sort_Permutation.
  - apply SignQS_eq.
  - rewrite SignQS_eq, index_Query_Encode. unfold Add at 1.
    rewrite index_insert, decide_True by reflexivity. apply last_snoc.
  - intros T.
    assert (SignQS T "GET" "pub1" "s3cr3t" foo_bar
            = "apikey=pub1&data="
                +:+ QueryEscape (encHashOf "s3cr3t" ("GET:apikey=pub1&foo=bar&ts=" +:+ Fmt.Sprintd T))
                +:+ "&foo=bar&ts=" +:+ Fmt.Sprintd T) as Hq.
    { rewrite SignQS_eq. unfold canonical, to_sign.
      rewrite scenario_Encode_to_sign, scenario_Encode_signed, scenario_text. reflexivity. }
    split; [exact Hq|].
    assert (Query {| RawQuery := SignQS T "GET" "pub1" "s3cr3t" foo_bar |}
            = Add (to_sign T "pub1" foo_bar) "data"
                  (encHashOf "s3cr3t" ("GET:apikey=pub1&foo=bar&ts=" +:+ Fmt.Sprintd T))) as HQ.
    { rewrite Query_SignQS by apply foo_bar_nonempty.
      unfold canonical, to_sign. rewrite scenario_Encode_to_sign, scenario_text.
      reflexivity. }
    rewrite HQ.
    destruct (to_sign_lookup T "pub1" foo_bar foo_bar_no_envelope) as (Hd & _ & _).
    split; [by apply Get_Add_fresh|]. split.
    + rewrite Del_Add_fresh by done. apply scenario_Encode_to_sign.
    + intros urlStr. unfold Hancock0.Sign. cbn [fst foo_bar].
      pose proof (scenario_Encode_to_sign T) as HE.
      rewrite copy_entries_default in HE.
      change (default ∅ foo_bar) with ({["foo" := ["bar"]]} : Values) in HE.
      rewrite HE, scenario_text. reflexivity.
Qed.

(** The scenario of C2 at the time 1700000000, evaluated. *)
Example SignQS_scenario_1700000000 :
  SignQS 1700000000 "GET" "pub1" "s3cr3t" foo_bar
  = "apikey=pub1&data=uvjXS-oziFmOVAt4cXzshE4wjiLVrRuiHjCZh4y6jpA%3D&foo=bar&ts=1700000000".
Proof. vm_compute. reflexivity. Qed.

(** ** The timestamp check *)

(** A timestamp that does not parse is reported as invalid. *)
Lemma isValidTS_invalid (now W : Z) (ts : string) (e : Strconv.NumError) :
  Strconv.ParseInt ts = inr e → isValidTS now ts W = ("invalid", false).
Proof. unfold isValidTS. by intros ->. Qed.

(** The reason is one of the two labels. *)
Lemma isValidTS_reason (now W : Z) (ts : string) :
  (isValidTS now ts W).1 = "expired" ∨ (isValidTS now ts W).1 = "invalid".
Proof. unfold isValidTS. destruct (Strconv.ParseInt ts); cbn; auto. Qed.

(** As long as the distance between the clock and the timestamp fits an
    [int64], the check compares that distance with the window. *)
Lemma isValidTS_exact (now i W : Z) (ts : string) :
  Strconv.ParseInt ts = inl i → Int64.in_range W → Z.abs (now - i) < 2 ^ 63 →
  isValidTS now ts W = ("expired", bool_decide (Z.abs (now - i) <= W)).
Proof.
  unfold isValidTS. intros -> HW Habs. rewrite (wrap_in_range W HW).
  assert (Int64.in_range (now - i)) as Hd
    by (unfold Int64.in_range, Int64.min, Int64.max; lia).
  rewrite (wrap_in_range _ Hd). f_equal.
  destruct (now - i <? 0) eqn:Hneg.
  - apply Z.ltb_lt in Hneg.
    rewrite wrap_in_range by (unfold Int64.in_range, Int64.min, Int64.max; lia).
    case_bool_decide; [apply Z.leb_le|apply Z.leb_gt]; lia.
  - apply Z.ltb_ge in Hneg. case_bool_decide; [apply Z.leb_le|apply Z.leb_gt]; lia.
Qed.

(** A timestamp exactly [W] seconds old passes, one [W + 1] seconds old
    is reported as expired; the same holds for timestamps ahead of the clock. *)
Lemma isValidTS_boundary (now W : Z) :
  Int64.in_range now → 0 <= W → W + 1 <= Int64.max →
  Int64.in_range (now - (W + 1)) → Int64.in_range (now + (W + 1)) →
  isValidTS now (Fmt.Sprintd (now - W)) W = ("expired", true)
  ∧ isValidTS now (Fmt.Sprintd (now - (W + 1))) W = ("expired", false)
  ∧ isValidTS now (Fmt.Sprintd (now + W)) W = ("expired", true)
  ∧ isValidTS now (Fmt.Sprintd (now + (W + 1))) W = ("expired", false).
Proof.
  unfold Int64.in_range, Int64.min, Int64.max. intros Hnow HW HW1 Hlo Hhi.
  assert (∀ i b, Int64.in_range i → Z.abs (now - i) < 2 ^ 63 →
                 bool_decide (Z.abs (now - i) <= W) = b →
                 isValidTS now (Fmt.Sprintd i) W = ("expired", b)) as Hexact.
  { intros i b Hi Habs <-. apply isValidTS_exact; [by apply ParseInt_Sprintd| |done].
    unfold Int64.in_range, Int64.min, Int64.max. lia. }
  repeat split; apply Hexact;
    try (unfold Int64.in_range, Int64.min, Int64.max; lia);
    try (apply bool_decide_eq_true_2; lia); apply bool_decide_eq_false_2; lia.
Qed.

(** Where the distance is exactly [2 ^ 63] the subtraction wraps to the
    least [int64], whose negation is itself: the check passes under every
    window. *)
Lemma isValidTS_wraps (now W : Z) :
  0 <= now <= Int64.max → Int64.in_range W →
  isValidTS now (Fmt.Sprintd (now - 2 ^ 63)) W = ("expired", true).
Proof.
  unfold Int64.in_range, Int64.min, Int64.max. intros Hnow HW. unfold isValidTS.
  rewrite ParseInt_Sprintd by (unfold Int64.in_range, Int64.min, Int64.max; lia).
  replace (now - (now - 2 ^ 63)) with (2 ^ 63) by lia.
  change (Int64.wrap (2 ^ 63)) with (- 2 ^ 63).
  change (- 2 ^ 63 <? 0) with true. cbv iota.
  change (Int64.wrap (- 2 ^ 63 * -1)) with (- 2 ^ 63).
  rewrite wrap_in_range by (unfold Int64.in_range, Int64.min, Int64.max; lia).
  f_equal. apply Z.leb_le. lia.
Qed.

(** Under a negative window the check passes for exactly the timestamps
    at distance [2 ^ 63] from the clock. *)
Lemma isValidTS_negative_window (now i W : Z) (ts : string) :
  Strconv.ParseInt ts = inl i → Int64.in_range now → Int64.in_range i →
  Int64.in_range W → W < 0 →
  (isValidTS now ts W).2 = true ↔ Z.abs (now - i) = 2 ^ 63.
Proof.
  unfold Int64.in_range, Int64.min, Int64.max. intros Hts Hnow Hi HW Hneg.
  unfold isValidTS. rewrite Hts. cbn [snd].
  rewrite (wrap_in_range W) by (unfold Int64.in_range, Int64.min, Int64.max; lia).
  unfold Int64.wrap.
  destruct (Z.eq_dec (Z.abs (now - i)) (2 ^ 63)) as [Heq|Hne].
  - split; [done|intros _].
    assert (now - i = 2 ^ 63 ∨ now - i = - 2 ^ 63) as [->| ->] by lia;
      match goal with
      | |- (?e <=? W) = true => let v := eval vm_compute in e in change e with v
      end; apply Z.leb_le; lia.
  - split; [|done]. intros Hok. exfalso.
    assert (- 2 ^ 63 < now - i < 2 ^ 63 ∨ 2 ^ 63 < now - i ∨ now - i < - 2 ^ 63)
      as [Hin|[Hhi|Hlo]] by lia.
    + rewrite (Z.mod_small (now - i + 2 ^ 63)) in Hok by lia.
      replace (now - i + 2 ^ 63 - 2 ^ 63) with (now - i) in Hok by lia.
      destruct (now - i <? 0) eqn:Hlt.
      * apply Z.ltb_lt in Hlt. rewrite (Z.mod_small ((now - i) * -1 + 2 ^ 63)) in Hok by lia.
        apply Z.leb_le in Hok. lia.
      * apply Z.ltb_ge in Hlt. apply Z.leb_le in Hok. lia.
    + replace (now - i + 2 ^ 63) with ((now - i - 2 ^ 63) + 1 * 2 ^ 64) in Hok by lia.
      rewrite Z.mod_add, (Z.mod_small (now - i - 2 ^ 63)) in Hok by lia.
      replace (now - i - 2 ^ 63 - 2 ^ 63 <? 0) with true in Hok
        by (symmetry; apply Z.ltb_lt; lia).
      rewrite (Z.mod_small ((now - i - 2 ^ 63 - 2 ^ 63) * -1 + 2 ^ 63)) in Hok by lia.
      apply Z.leb_le in Hok. lia.
    + replace (now - i + 2 ^ 63) with ((now - i + 2 ^ 63 + 2 ^ 64) + (-1) * 2 ^ 64) in Hok by lia.
      rewrite Z.mod_add, (Z.mod_small (now - i + 2 ^ 63 + 2 ^ 64)) in Hok by lia.
      replace (now - i + 2 ^ 63 + 2 ^ 64 - 2 ^ 63 <? 0) with false in Hok
        by (symmetry; apply Z.ltb_ge; lia).
      apply Z.leb_le in Hok. lia.
Qed.

(** C3 (the code at the failing input): at the clock reading 1700000000
    the timestamp [-9223372035154775808] parses, lies [2 ^ 63] seconds in
    the past, and [isValidTS] reports it as fresh under the window 0. *)
Theorem isValidTS_overflow :
  Strconv.ParseInt "-9223372035154775808" = inl (-9223372035154775808)
  ∧ Z.abs (1700000000 - -9223372035154775808) = 2 ^ 63
  ∧ isValidTS 1700000000 "-9223372035154775808" 0 = ("expired", true).
Proof. by vm_compute. Qed.

(** ** The outcomes of [Validate] *)

Lemma parseDigits_lower (str : string) (n m : Z) :
  Strconv.parseDigits str n = inl m → 0 <= n → 0 <= m.
Proof.
  revert n. induction str as [|c str IH]; intros n; cbn [Strconv.parseDigits].
  - intros [= <-]. done.
  - destruct (between "0" "9" c) eqn:Hc; [|done].
    destruct (Strconv.maxUint64 <? _); [done|]. intros Hm Hn.
    apply (IH _ Hm).
    assert (0 <= byte_of_ascii c - byte_of_ascii "0"); [|lia].
    unfold between in Hc. apply andb_prop in Hc as [Hc _]. apply Z.leb_le in Hc. lia.
Qed.

(** What [strconv.ParseInt] returns without error is an [int64]. *)
Lemma ParseInt_range (ts : string) (i : Z) :
  Strconv.ParseInt ts = inl i → Int64.in_range i.
Proof.
  unfold Strconv.ParseInt, Int64.in_range, Int64.min, Int64.max.
  destruct ts as [|c ts]; [done|].
  destruct (Strconv.ParseUint _) as [un|[]] eqn:Hun; [|done..].
  assert (0 <= un) as Hpos.
  { unfold Strconv.ParseUint in Hun.
    destruct (if decide (c = "+"%char) then ts else _); [done|].
    by apply parseDigits_lower in Hun. }
  destruct (bool_decide (c = "-"%char)); cbn [negb andb].
  - destruct (2 ^ 63 <? un) eqn:Hc; [done|]. apply Z.ltb_ge in Hc. intros [= <-]. lia.
  - destruct (2 ^ 63 <=? un) eqn:Hc; [done|]. apply Z.leb_gt in Hc. intros [= <-]. lia.
Qed.

(** C4: with [expireSeconds = -2], for every request and secret key,
    [Validate] returns without error the parsed query of the request with
    the keys [data], [apikey] and [ts] deleted: every other key keeps its
    values, whatever the [data] field holds. *)
Theorem Validate_bypass (now : Z) (r : Request) (pKey : string) :
  Validate now r pKey (-2)
  = (Some (Del (Del (Del (Query (URL r)) "data") "apikey") "ts"), None)
  ∧ Del (Del (Del (Query (URL r)) "data") "apikey") "ts"
    = filter (fun kv => kv.1 ∉ ["apikey"; "ts"; "data"]) (Query (URL r)).
Proof.
  split; [reflexivity|].
  apply map_eq. intros k. apply option_eq. intros xs. unfold Del.
  rewrite map_lookup_filter_Some, !lookup_delete_Some. cbn [fst].
  rewrite !not_elem_of_cons.
  pose proof (not_elem_of_nil k).
  split; intros; destruct_and?; repeat split; try assumption; congruence.
Qed.

(** C10: with [expireSeconds = -2] the result of [Validate] is the same
    under any two secret keys, and validation succeeds under the empty key. *)
Theorem Validate_bypass_key_independent (now : Z) (r : Request) (pKey1 pKey2 : string) :
  Validate now r pKey1 (-2) = Validate now r pKey2 (-2)
  ∧ Validate now r "" (-2)
    = (Some (Del (Del (Del (Query (URL r)) "data") "apikey") "ts"), None).
Proof. split; reflexivity. Qed.

(** C6: when the timestamp check is made and fails, [Validate] returns an
    error with status 406 whose message is the reason ([expired] or
    [invalid]), the word [timestamp] and the raw [ts] value; when the check
    passed or was skipped (and the window is not [-2]) and the recomputed
    signature differs from the [data] value, it returns an error with
    status 401 whose message holds both values; and every error [Validate]
    returns is one of these two, with no values returned. *)
Theorem Validate_errors (now : Z) (r : Request) (pKey : string) (W : Z) :
  let v := Query (URL r) in
  let ts := Get v "ts" in
  let data := Get v "data" in
  let encHash := encHashOf pKey (Method r +:+ ":" +:+ Encode (Del v "data")) in
  let reason := (isValidTS now ts W).1 in
  let e406 := {| s := reason +:+ " timestamp " +:+ ts; Status := 406 |} in
  let e401 := {| s := "signature mismatch `" +:+ encHash +:+ "` != `" +:+ data +:+ "`";
                 Status := 401 |} in
  (reason = "expired" ∨ reason = "invalid")
  ∧ (W ≠ -1 → W ≠ -2 → (isValidTS now ts W).2 = false →
     Validate now r pKey W = (None, Some e406))
  ∧ (W ≠ -2 → W = -1 ∨ (isValidTS now ts W).2 = true → encHash ≠ data →
     Validate now r pKey W = (None, Some e401))
  ∧ (∀ e, (Validate now r pKey W).2 = Some e →
       (Validate now r pKey W).1 = None ∧ (e = e406 ∨ e = e401)).
Proof.
  cbv zeta. rewrite Validate_cases. cbv zeta. unfold recomputed.
  generalize (encHashOf pKey (Method r +:+ ":" +:+ Encode (Del (Query (URL r)) "data"))).
  intros encHash.
  split; [apply isValidTS_reason|]. split; [|split].
  - intros H1 H2 Hts. rewrite decide_False, decide_True by tauto. reflexivity.
  - intros H2 Hts Hne. rewrite decide_False by tauto.
    rewrite (decide_False (P := _ ∧ _)).
    + rewrite decide_False by tauto. reflexivity.
    + intros [H1 Hf]. destruct Hts as [?|Hts]; [tauto|]. rewrite Hts in Hf. discriminate.
  - intros e. repeat case_decide; cbn [fst snd]; intros [= <-]; split; auto.
Qed.

Lemma Validate_errors_witness :
  Validate 1700000100 (request "GET" "apikey=pub1&data=x&foo=bar&ts=1700000000") "s3cr3t" 60
  = (None, Some {| s := "expired timestamp 1700000000"; Status := 406 |})
  ∧ Validate 1700000000 (request "GET" "apikey=pub1&data=x&foo=bar&ts=oops") "s3cr3t" 60
    = (None, Some {| s := "invalid timestamp oops"; Status := 406 |})
  ∧ Validate 1700000000 (request "GET" "apikey=pub1&data=x&foo=bar&ts=1700000000") "s3cr3t" 60
    = (None,
       Some {| s := "signature mismatch `uvjXS-oziFmOVAt4cXzshE4wjiLVrRuiHjCZh4y6jpA=` != `x`";
               Status := 401 |}).
Proof.
  split; [|split].
  - refine (proj1 (proj2 (Validate_errors 1700000100
      (request "GET" "apikey=pub1&data=x&foo=bar&ts=1700000000") "s3cr3t" 60)) _ _ _);
      [lia | lia | vm_compute; reflexivity].
  - refine (proj1 (proj2 (Validate_errors 1700000000
      (request "GET" "apikey=pub1&data=x&foo=bar&ts=oops") "s3cr3t" 60)) _ _ _);
      [lia | lia | vm_compute; reflexivity].
  - refine (eq_trans (proj1 (proj2 (proj2 (Validate_errors 1700000000
      (request "GET" "apikey=pub1&data=x&foo=bar&ts=1700000000") "s3cr3t" 60))) _ _ _) _);
      [lia | right; vm_compute; reflexivity | vm_compute; discriminate
      | vm_compute; reflexivity].
Defined.

(** ** Negative windows *)

(** Under a negative window other than [-1] and [-2], [Validate] returns
    the 406 timestamp error for every request whose [ts] does not parse or
    lies at a distance other than [2 ^ 63] from the clock. *)
Lemma Validate_negative_window (now : Z) (r : Request) (pKey : string) (W : Z) :
  Int64.in_range now → Int64.in_range W → W < 0 → W ≠ -1 → W ≠ -2 →
  (∀ i, Strconv.ParseInt (Get (Query (URL r)) "ts") = inl i → Z.abs (now - i) ≠ 2 ^ 63) →
  (Validate now r pKey W).1 = None
  ∧ ∃ e, (Validate now r pKey W).2 = Some e ∧ Status e = StatusNotAcceptable.
Proof.
  intros Hnow HW Hneg H1 H2 Hts.
  rewrite Validate_cases. cbv zeta. rewrite decide_False by exact H2.
  rewrite decide_True; [cbn; eauto|]. split; [exact H1|].
  destruct (Strconv.ParseInt (Get (Query (URL r)) "ts")) as [i|e] eqn:Hp.
  - apply not_true_is_false. intros Hok.
    apply (isValidTS_negative_window now i W) in Hok;
      [by apply (Hts i)|done|done|by apply (ParseInt_range _ _ Hp)|done|done].
  - by rewrite (isValidTS_invalid _ _ _ e).
Qed.

(** C9 (the code at the failing input): at the clock reading 1700000000 and
    under the window [-3], a request signed for the timestamp
    [-9223372035154775808] is accepted: the timestamp check passes and no
    406 error is returned. *)
Theorem Validate_negative_window_overflow :
  Validate 1700000000
    (request "GET"
       "apikey=pub1&data=_mVH8sndjRR5zYXzr8CyeA2Nje613xltSgWnlyEI5PQ%3D&foo=bar&ts=-9223372035154775808")
    "s3cr3t" (-3)
  = (Some {["foo" := ["bar"]]}, None).
Proof. vm_compute. reflexivity. Qed.

(** ** Tampering with a signed request *)

Lemma Get_insert_ne (v : Values) (k j : string) (xs : list string) :
  k ≠ j → Get (<[k := xs]> v) j = Get v j.
Proof. intros Hk. unfold Get. by rewrite index_insert, decide_False. Qed.

Lemma Get_insert_eq (v : Values) (k x : string) : Get (<[k := [x]]> v) k = x.
Proof. unfold Get. by rewrite index_insert, decide_True. Qed.

Lemma nonempty_values_insert (v : Values) (k : string) (xs : list string) :
  xs ≠ [] → nonempty_values v → nonempty_values (<[k := xs]> v).
Proof. intros Hxs Hv. by apply map_Forall_insert_2. Qed.

(** When the timestamp check passes or is skipped and verification is not
    disabled, a [data] value other than the recomputed signature gives the
    401 error. *)
Lemma Validate_mismatch (now : Z) (r : Request) (pKey : string) (W : Z) :
  W ≠ -2 → W = -1 ∨ (isValidTS now (Get (Query (URL r)) "ts") W).2 = true →
  recomputed r pKey ≠ Get (Query (URL r)) "data" →
  Validate now r pKey W
  = (None, Some (newError StatusUnauthorized
                   (mismatch_msg (recomputed r pKey) (Get (Query (URL r)) "data")))).
Proof.
  intros H2 Hts Hne. rewrite Validate_cases. cbv zeta.
  rewrite decide_False by assumption.
  rewrite (decide_False (P := _ ∧ _)).
  - rewrite decide_False by assumption. reflexivity.
  - intros [H1 Hf]. destruct Hts as [?|Hts]; [tauto|]. rewrite Hts in Hf. discriminate.
Qed.

(** A request that [Validate] accepts carries the recomputed signature. *)
Lemma Validate_accepts (now : Z) (r : Request) (pKey : string) (W : Z) (v : Values) :
  W ≠ -2 → Validate now r pKey W = (Some v, None) →
  recomputed r pKey = Get (Query (URL r)) "data".
Proof.
  intros H2. rewrite Validate_cases. cbv zeta.
  rewrite decide_False by assumption. repeat case_decide; [discriminate|tauto|discriminate].
Qed.

(** The timestamp of a signed query passes the check of a window that
    holds the signing time, and any check is skipped under [-1]. *)
Lemma signed_ts_fresh (now_s now W : Z) :
  Int64.in_range now_s → Int64.in_range now → Int64.in_range W →
  W = -1 ∨ Z.abs (now - now_s) <= W →
  W ≠ -2 ∧ (W = -1 ∨ (isValidTS now (Fmt.Sprintd now_s) W).2 = true).
Proof.
  intros Hs Hnow HW [->|Habs]; [split; [lia|by left]|].
  split; [lia|right].
  by rewrite (isValidTS_fresh now now_s W) by auto using ParseInt_Sprintd.
Qed.

(** C5 (as amended): take a query signed by [SignQS] for a parameter set
    without the reserved keys and without empty value lists, and a
    freshness setting under which its timestamp check passes or is skipped
    ([W = -1], or [|now - now_s| <= W]). Replacing the [data] value by any
    other value makes [Validate] fail with the 401 signature-mismatch
    error. Replacing the method, or the values of one parameter, makes
    [Validate] fail with that error whenever the HMAC of the changed text
    differs from the transported signature. *)
Theorem tamper_detected (now_s now W : Z) (method key pKey : string) (values : option Values) :
  let signed := Add (Add (copy_entries values) "apikey" key) "ts" (Fmt.Sprintd now_s) in
  let mac := encHashOf pKey (method +:+ ":" +:+ Encode signed) in
  let sent := Add signed "data" mac in
  Int64.in_range now_s → Int64.in_range now → Int64.in_range W →
  no_envelope (default ∅ values) → nonempty_values (default ∅ values) →
  W = -1 ∨ Z.abs (now - now_s) <= W →
  SignQS now_s method key pKey values = Encode sent
  ∧ (∀ data' : string, data' ≠ mac →
       Validate now (request method (Encode (<["data" := [data']]> sent))) pKey W
       = (None, Some (newError StatusUnauthorized (mismatch_msg mac data'))))
  ∧ (∀ method' : string,
       encHashOf pKey (method' +:+ ":" +:+ Encode signed) ≠ mac →
       Validate now (request method' (Encode sent)) pKey W
       = (None, Some (newError StatusUnauthorized
                        (mismatch_msg (encHashOf pKey (method' +:+ ":" +:+ Encode signed)) mac))))
  ∧ (∀ (k : string) (xs' : list string),
       is_Some (default ∅ values !! k) → xs' ≠ [] →
       encHashOf pKey (method +:+ ":" +:+ Encode (<[k := xs']> signed)) ≠ mac →
       Validate now (request method (Encode (<[k := xs']> sent))) pKey W
       = (None, Some (newError StatusUnauthorized
                        (mismatch_msg
                           (encHashOf pKey (method +:+ ":" +:+ Encode (<[k := xs']> signed)))
                           mac)))).
Proof.
  cbv zeta. fold (to_sign now_s key values).
  intros Hs Hnow HW Henv Hne Hwin.
  destruct (to_sign_lookup now_s key values Henv) as (Hdata & Hts & _).
  destruct (signed_ts_fresh now_s now W Hs Hnow HW Hwin) as (H2 & Hfresh).
  set (signed := to_sign now_s key values) in *.
  set (mac := encHashOf pKey (method +:+ ":" +:+ Encode signed)).
  assert (nonempty_values signed) as Hsigned.
  { unfold signed, to_sign. rewrite copy_entries_default. by repeat apply nonempty_values_Add. }
  assert (Add signed "data" mac = <["data" := [mac]]> signed) as Hsent.
  { unfold Add. by rewrite (index_lookup_None _ _ Hdata). }
  split; [exact (SignQS_eq now_s method key pKey values)|]. rewrite Hsent.
  split; [|split].
  - intros data' Hd. rewrite insert_insert_eq.
    rewrite Validate_mismatch; unfold recomputed; cbn [request URL Method];
      rewrite ?Query_Encode by (by apply nonempty_values_insert);
      rewrite ?Get_insert_ne, ?Get_insert_eq, ?Hts by done;
      unfold Del; rewrite ?delete_insert_eq, ?(delete_id _ _ Hdata);
      [reflexivity|assumption|assumption|].
    fold mac. congruence.
  - intros method' Hm.
    rewrite Validate_mismatch; unfold recomputed; cbn [request URL Method];
      rewrite ?Query_Encode by (by apply nonempty_values_insert);
      rewrite ?Get_insert_ne, ?Get_insert_eq, ?Hts by done;
      unfold Del; rewrite ?delete_insert_eq, ?(delete_id _ _ Hdata);
      [reflexivity|assumption|assumption|assumption].
  - intros k xs' [xs Hk] Hxs Hm.
    assert (k ≠ "data" ∧ k ≠ "ts") as [Hkd Hkt].
    { destruct Henv as (_ & Ht & Hd). split; intros ->; congruence. }
    rewrite Validate_mismatch; unfold recomputed; cbn [request URL Method];
      rewrite ?Query_Encode
        by (apply nonempty_values_insert; [assumption|by apply nonempty_values_insert]);
      rewrite ?(Get_insert_ne _ k) by done;
      rewrite ?Get_insert_ne, ?Get_insert_eq, ?Hts by done;
      unfold Del; rewrite ?(delete_insert_ne _ "data" k) by done;
      rewrite ?delete_insert_eq, ?(delete_id _ _ Hdata);
      [reflexivity|assumption|assumption|assumption].
Qed.

Lemma tamper_detected_witness :
  let sent : Values :=
    Add (Add (Add (copy_entries foo_bar) "apikey" "pub1") "ts" (Fmt.Sprintd 1700000000))
        "data" "uvjXS-oziFmOVAt4cXzshE4wjiLVrRuiHjCZh4y6jpA=" in
  Validate 1700000005 (request "GET" (Encode (<["data" := ["x"]]> sent))) "s3cr3t" 60
  = (None,
     Some {| s := "signature mismatch `uvjXS-oziFmOVAt4cXzshE4wjiLVrRuiHjCZh4y6jpA=` != `x`";
             Status := 401 |})
  ∧ Validate 1700000005 (request "POST" (Encode sent)) "s3cr3t" 60
    = (None,
       Some {| s := "signature mismatch `Zr94mxzHqCFfRlJ7vucdIaZdfz8t2pvDZuhTF_wvoNM=` != `uvjXS-oziFmOVAt4cXzshE4wjiLVrRuiHjCZh4y6jpA=`";
               Status := 401 |})
  ∧ Validate 1700000005 (request "GET" (Encode (<["foo" := ["baz"]]> sent))) "s3cr3t" 60
    = (None,
       Some {| s := "signature mismatch `C8o_4ws7nhBe_hpYj7ywJSrcTulHs0p_r1Ay2DqZDIE=` != `uvjXS-oziFmOVAt4cXzshE4wjiLVrRuiHjCZh4y6jpA=`";
               Status := 401 |}).
Proof.
  assert (Int64.in_range 1700000000 ∧ Int64.in_range 1700000005 ∧ Int64.in_range 60)
    as (Hs & Hnow & HW) by (unfold Int64.in_range, Int64.min, Int64.max; lia).
  assert (60 = -1 ∨ Z.abs (1700000005 - 1700000000) <= 60) as Hwin by (right; lia).
  pose proof (tamper_detected 1700000000 1700000005 60 "GET" "pub1" "s3cr3t" foo_bar
                Hs Hnow HW foo_bar_no_envelope foo_bar_nonempty Hwin) as (_ & Hd & Hm & Hp).
  clear Hs Hnow HW Hwin. cbv zeta. split; [|split].
  - refine (eq_trans _ (eq_trans (Hd "x" _) _));
      [vm_compute; reflexivity | vm_compute; discriminate | vm_compute; reflexivity].
  - refine (eq_trans _ (eq_trans (Hm "POST" _) _));
      [vm_compute; reflexivity | vm_compute; discriminate | vm_compute; reflexivity].
  - refine (eq_trans _ (eq_trans (Hp "foo" ["baz"] _ _ _) _));
      [vm_compute; reflexivity | vm_compute; eexists; reflexivity | discriminate
      | vm_compute; discriminate | vm_compute; reflexivity].
Defined.

(** C5 (as stated) fails where the timestamp check is made and fails: the
    query signed at 1700000000, its [data] value replaced by [x], validated
    100 seconds later under the window 60, is refused with the 406
    timestamp error, not with a signature mismatch. *)
Lemma tamper_counterexample :
  let q := SignQS 1700000000 "GET" "pub1" "s3cr3t" foo_bar in
  let tampered := Encode (<["data" := ["x"]]> (Query {| RawQuery := q |})) in
  tampered = "apikey=pub1&data=x&foo=bar&ts=1700000000"
  ∧ Validate 1700000100 (request "GET" tampered) "s3cr3t" 60
    = (None, Some {| s := "expired timestamp 1700000000"; Status := 406 |}).
Proof. vm_compute. split; reflexivity. Qed.

(** * Maps and slices in memory

    [url.Values] is a reference to a map whose values are slices: views
    [off, off + len) of a backing array that may be shared, with room for
    [cap] elements. [append] writes in place while there is room and moves
    the slice to a new array otherwise. A request is reached through a
    pointer. *)

Module Mem.

(** A slice header. The nil slice has no element and no room. *)
Record slice := Slice { arr : nat; off : nat; len : nat; cap : nat }.

Definition nil_slice : slice := Slice 0 0 0 0.

Record store := Store {
  arrays : gmap nat (list string);      (* backing arrays *)
  maps : gmap nat (gmap string slice);  (* map objects *)
  reqs : gmap nat Request               (* http.Request objects *)
}.

(** Computations on the store. *)
Definition M (A : Type) : Type := store → A * store.

#[global] Instance M_ret : MRet M := fun A (a : A) (st : store) => (a, st).
#[global] Instance M_bind : MBind M :=
  fun A B (k : A → M B) (c : M A) (st : store) => let '(a, st') := c st in k a st'.

Definition gets {A} (f : store → A) : M A := fun st => (f st, st).
Definition modify (f : store → store) : M unit := fun st => ((), f st).

(** The elements a slice shows. *)
Definition contents (st : store) (sl : slice) : list string :=
  take (len sl) (drop (off sl) (default [] (arrays st !! arr sl))).

(** The header stored under [key] in the map [m]: [v[key]]. *)
Definition header (st : store) (m : nat) (key : string) : slice :=
  default nil_slice (default ∅ (maps st !! m) !! key).

(** The map [m] as its reader sees it. *)
Definition view (st : store) (m : nat) : Values :=
  contents st <$> default ∅ (maps st !! m).

Definition set_arrays (f : gmap nat (list string) → gmap nat (list string)) (st : store)
  : store := Store (f (arrays st)) (maps st) (reqs st).

Definition set_maps (f : gmap nat (gmap string slice) → gmap nat (gmap string slice))
    (st : store) : store := Store (arrays st) (f (maps st)) (reqs st).

(** [v[key] = sl] *)
Definition assign (m : nat) (key : string) (sl : slice) : M unit :=
  modify (set_maps (fun ms => <[m := <[key := sl]> (default ∅ (ms !! m))]> ms)).

(** [make(url.Values)] *)
Definition make_map : M nat :=
  fun st => let m := fresh (dom (maps st)) in (m, set_maps (insert m ∅) st).

Section growth.

(** The capacity [append] asks for when a slice of the given capacity is
    full; the runtime decides it. *)
Variable growslice : nat → nat.

(** [append(sl, x)] *)
Definition append (sl : slice) (x : string) : M slice :=
  fun st =>
    if (len sl <? cap sl)%nat then
      (Slice (arr sl) (off sl) (S (len sl)) (cap sl),
       set_arrays (fun ars => <[arr sl := <[(off sl + len sl)%nat := x]>
                                            (default [] (ars !! arr sl))]> ars) st)
    else
      let a := fresh (dom (arrays st)) in
      let newcap := (growslice (cap sl) `max` S (len sl))%nat in
      (Slice a 0 (S (len sl)) newcap,
       set_arrays (insert a (contents st sl ++ x :: replicate (newcap - S (len sl)) "")) st).

(** [v.Add(key, value)]: [v[key] = append(v[key], value)] *)
Definition Add_st (m : nat) (key value : string) : M unit :=
  sl ← gets (fun st => header st m key);
  sl' ← append sl value;
  assign m key sl'.

(** [v.Del(key)] *)
Definition Del_st (m : nat) (key : string) : M unit :=
  modify (set_maps (fun ms => <[m := delete key (default ∅ (ms !! m))]> ms)).

(** [v.Get(key)] *)
Definition Get_st (m : nat) (key : string) : M string :=
  gets (fun st => Get (view st m) key).

(** [v.Encode()] *)
Definition Encode_st (m : nat) : M string :=
  gets (fun st => Encode (view st m)).

(** The loop of [parseQuery] on the map [m]. *)
Fixpoint parseQuery_st (fuel : nat) (m : nat) (err : option URL.error) (query : string)
  : M (option URL.error) :=
  match fuel with
  | O => mret err
  | S fuel' =>
      match query with
      | "" => mret err
      | _ =>
          let '(key, query', _) := Strings.Cut query "&" in
          if Strings.Contains key ";" then parseQuery_st fuel' m (Some SemicolonError) query'
          else if decide (key = "") then parseQuery_st fuel' m err query'
          else
            let '(key, value, _) := Strings.Cut key "=" in
            match QueryUnescape key with
            | inr err1 =>
                parseQuery_st fuel' m (if err is None then Some err1 else err) query'
            | inl key =>
                match QueryUnescape value with
                | inr err1 =>
                    parseQuery_st fuel' m (if err is None then Some err1 else err) query'
                | inl value => Add_st m key value;; parseQuery_st fuel' m err query'
                end
            end
      end
  end.

(** [u.Query()]: a new map filled by [parseQuery], the error dropped. *)
Definition Query_st (u : URL.URL) : M nat :=
  m ← make_map;
  parseQuery_st (String.length (RawQuery u)) m None (RawQuery u);;
  mret m.

(** The lines of [Validate] behind the switch, on the parsed query [v]
    of the request [req]: the returned map, as a reference, and the
    returned error. *)
Definition verify_st (req : Request) (pKey : string) (v : nat)
  : M (option nat * option Error) :=
  data ← Get_st v "data";
  Del_st v "data";;
  enc ← Encode_st v;
  let sig := Method req +:+ ":" +:+ enc in
  let encHash := encHashOf pKey sig in
  if decide (encHash <> data) then
    mret (None, Some (newError StatusUnauthorized (mismatch_msg encHash data)))
  else
    Del_st v "apikey";;
    Del_st v "ts";;
    mret (Some v, None).

(** [Validate] on a pointer [r] to a request. The result is [None] when
    [r] points to no request (the dereference panics). *)
Definition Validate_st (now : Z) (r : nat) (pKey : string) (expireSeconds : Z)
  : M (option (option nat * option Error)) :=
  fun st =>
    match reqs st !! r with
    | None => (None, st)
    | Some req =>
        (v ← Query_st (URL req);
         res ← (if decide (expireSeconds = -1) then verify_st req pKey v
                else if decide (expireSeconds = -2) then
                  Del_st v "data";;
                  Del_st v "apikey";;
                  Del_st v "ts";;
                  mret (Some v, None)
                else
                  ts ← Get_st v "ts";
                  let '(s, ok) := isValidTS now ts expireSeconds in
                  if negb ok then
                    mret (None, Some (newError StatusNotAcceptable (timestamp_msg s ts)))
                  else verify_st req pKey v);
         mret (Some res)) st
    end.

(** The loop [for k, o := range values { v[k] = o }]: every header of
    the map [values] is stored in the map [v]. *)
Definition range_assign (v values : nat) : M unit :=
  modify (fun st =>
    set_maps (fun ms =>
      <[v := map_fold (fun k o acc => <[k := o]> acc) (default ∅ (ms !! v))
                      (default ∅ (ms !! values))]> ms) st).

(** [SignQS] on a reference to the caller's map ([None] for nil). *)
Definition SignQS_st (now : Z) (method key pKey : string) (values : option nat) : M string :=
  v ← make_map;
  match values with Some values => range_assign v values | None => mret () end;;
  Add_st v "apikey" key;;
  Add_st v "ts" (Fmt.Sprintd now);;
  enc ← Encode_st v;
  let sig := method +:+ ":" +:+ enc in
  let encHash := encHashOf pKey sig in
  Add_st v "data" encHash;;
  Encode_st v.

(** [Sign] of the revision without [SignQS], which adds to the map it is
    given unless that is nil. *)
Definition Sign0_st (now : Z) (method key pKey urlStr : string) (qs : option nat) : M string :=
  qs ← match qs with Some qs => mret qs | None => make_map end;
  Add_st qs "apikey" key;;
  Add_st qs "ts" (Fmt.Sprintd now);;
  q ← Encode_st qs;
  let sig := method +:+ ":" +:+ q in
  let encHash := encHashOf pKey sig in
  mret (urlStr +:+ "?" +:+ q +:+ "&data=" +:+ encHash).

End growth.

(** Capacities double, as the runtime does for short slices. *)
Definition double (c : nat) : nat := (2 * c)%nat.

End Mem.

Module MemFacts.
Import Mem.

(** A slice lies within its backing array. *)
Definition in_bounds (st : store) (sl : slice) : Prop :=
  ∃ a, arrays st !! arr sl = Some a
       ∧ (off sl + cap sl <= length a)%nat ∧ (len sl <= cap sl)%nat.

(** Every slice of the map [mm] lies within its backing array. *)
Definition valid (st : store) (mm : gmap string slice) : Prop :=
  map_Forall (fun _ sl => in_bounds st sl) mm.

Lemma contents_nil (st : store) : contents st nil_slice = [].
Proof. reflexivity. Qed.

Lemma length_contents (st : store) (sl : slice) :
  in_bounds st sl → length (contents st sl) = len sl.
Proof.
  intros (a & Ha & Hcap & Hlen). unfold contents. rewrite Ha. cbn.
  rewrite length_take, length_drop. lia.
Qed.

(** Writing the element just behind a view extends the view. *)
Lemma take_drop_insert (a : list string) (o n : nat) (x : string) :
  (o + n < length a)%nat →
  take (S n) (drop o (<[(o + n)%nat := x]> a)) = take n (drop o a) ++ [x].
Proof.
  intros Hlt. rewrite drop_insert_ge by lia.
  replace (o + n - o)%nat with n by lia.
  rewrite (take_S_r _ _ x).
  - f_equal. by rewrite take_insert_ge.
  - apply list_lookup_insert_eq. rewrite length_drop. lia.
Qed.

Section growth.
Variable growslice : nat → nat.

(** [append] with room left: the element is written into the shared array. *)
Lemma append_in_place (st : store) (sl : slice) (x : string) :
  in_bounds st sl → (len sl < cap sl)%nat →
  ∃ a, arrays st !! arr sl = Some a
       ∧ append growslice sl x st
         = (Slice (arr sl) (off sl) (S (len sl)) (cap sl),
            Store (<[arr sl := <[(off sl + len sl)%nat := x]> a]> (arrays st))
                  (maps st) (reqs st))
       ∧ (off sl + len sl < length a)%nat.
Proof.
  intros (a & Ha & Hcap & Hlen) Hroom. exists a. split; [done|].
  unfold append. apply Nat.ltb_lt in Hroom as Hb. rewrite Hb.
  unfold set_arrays. rewrite Ha. split; [done|lia].
Qed.

(** [append] without room: the elements move to a new array. *)
Lemma append_moves (st : store) (sl : slice) (x : string) :
  ¬ (len sl < cap sl)%nat →
  let a := fresh (dom (arrays st)) in
  let newcap := (growslice (cap sl) `max` S (len sl))%nat in
  append growslice sl x st
  = (Slice a 0 (S (len sl)) newcap,
     Store (<[a := contents st sl ++ x :: replicate (newcap - S (len sl)) ""]> (arrays st))
           (maps st) (reqs st))
  ∧ arrays st !! a = None.
Proof.
  intros Hroom. cbv zeta. split.
  - unfold append. apply Nat.ltb_nlt in Hroom as Hb. by rewrite Hb.
  - apply not_elem_of_dom, is_fresh.
Qed.

(** What [v.Add] does to the store, provided the slices of the map lie in
    their arrays and, when the element is written in place, no other key
    of the map shares the array written to. *)
Lemma Add_st_spec (st : store) (m : nat) (mm : gmap string slice) (k x : string) :
  maps st !! m = Some mm → valid st mm →
  ((len (header st m k) < cap (header st m k))%nat →
   ∀ k' sl', k' ≠ k → mm !! k' = Some sl' → arr sl' ≠ arr (header st m k)) →
  ∃ sl' ars',
    (Add_st growslice m k x st).2 = Store ars' (<[m := <[k := sl']> mm]> (maps st)) (reqs st)
    ∧ valid (Store ars' (<[m := <[k := sl']> mm]> (maps st)) (reqs st)) (<[k := sl']> mm)
    ∧ view (Store ars' (<[m := <[k := sl']> mm]> (maps st)) (reqs st)) m
      = Add (view st m) k x
    ∧ ((arr sl' = arr (header st m k) ∧ mm !! k = Some (header st m k)
        ∧ ∃ a, ars' = <[arr sl' := a]> (arrays st))
       ∨ (arrays st !! arr sl' = None ∧ ∃ a, ars' = <[arr sl' := a]> (arrays st))).
Proof.
  intros Hm Hvalid Hsep.
  assert (header st m k = default nil_slice (mm !! k)) as Hhdr
    by (unfold header; by rewrite Hm).
  assert (index (view st m) k = contents st (header st m k)) as Hidx.
  { unfold index, view. rewrite Hm, lookup_fmap, Hhdr. cbn. by destruct (mm !! k). }
  unfold Add_st, mbind, M_bind, gets, assign, modify, set_maps. cbn [fst snd].
  set (sl := header st m k) in *.
  destruct (decide (len sl < cap sl)%nat) as [Hroom|Hroom].
  - (* in place *)
    assert (mm !! k = Some sl) as Hk.
    { destruct (mm !! k) as [s0|] eqn:Hk; cbn in Hhdr; [by rewrite Hhdr|].
      rewrite Hhdr in Hroom. cbn in Hroom. lia. }
    destruct (append_in_place st sl x (Hvalid k sl Hk) Hroom) as (a & Ha & -> & Hlt).
    cbn [fst snd maps arrays reqs]. rewrite Hm. cbn [from_option id].
    eexists _, _. split; [reflexivity|].
    assert (∀ j sj, j ≠ k → mm !! j = Some sj →
              contents (Store (<[arr sl := <[(off sl + len sl)%nat := x]> a]> (arrays st))
                              (<[m := <[k := Slice (arr sl) (off sl) (S (len sl)) (cap sl)]> mm]>
                                 (maps st)) (reqs st)) sj = contents st sj) as Hothers.
    { intros j sj Hj Hsj. unfold contents. cbn [arrays].
      by rewrite lookup_insert_ne by (apply not_eq_sym, (Hsep Hroom j sj Hj Hsj)). }
    split; [|split].
    + intros j sj. rewrite lookup_insert. case_decide as Hj.
      * intros [= <-]. exists (<[(off sl + len sl)%nat := x]> a). cbn [arrays arr off len cap].
        rewrite lookup_insert_eq, length_insert.
        destruct (Hvalid k sl Hk) as (a' & Ha' & ? & ?). rewrite Ha in Ha'.
        injection Ha' as <-. repeat split; [done|lia].
      * intros Hsj. destruct (Hvalid j sj Hsj) as (aj & Haj & ? & ?).
        exists aj. cbn [arrays].
        by rewrite lookup_insert_ne by (apply not_eq_sym, (Hsep Hroom j sj); done).
    + unfold view at 1. cbn [maps]. rewrite lookup_insert_eq. cbn [from_option id].
      rewrite fmap_insert. unfold Add. rewrite Hidx.
      apply map_eq. intros j. rewrite !lookup_insert. case_decide as Hj.
      * f_equal. unfold contents. cbn [arrays arr off len cap].
        rewrite lookup_insert_eq, Ha. cbn [from_option id]. by apply take_drop_insert.
      * unfold view. rewrite Hm. cbn [from_option id]. rewrite !lookup_fmap.
        destruct (mm !! j) as [sj|] eqn:Hsj; [|done]. cbn.
        f_equal. apply (Hothers j sj); [by apply not_eq_sym|done].
    + left. cbn [arr]. eauto.
  - (* moved *)
    destruct (append_moves st sl x Hroom) as (-> & Hfresh).
    cbn [fst snd maps arrays reqs]. rewrite Hm. cbn [from_option id].
    eexists _, _. split; [reflexivity|].
    set (a := fresh (dom (arrays st))) in *.
    assert (∀ sj, in_bounds st sj →
              ∀ ars ms rs, contents (Store (<[a := ars]> (arrays st)) ms rs) sj = contents st sj
                           ∧ in_bounds (Store (<[a := ars]> (arrays st)) ms rs) sj) as Hothers.
    { intros sj (aj & Haj & ? & ?) ars ms rs.
      assert (a ≠ arr sj) by (intros Heq; rewrite <-Heq in Haj; congruence).
      split.
      - unfold contents. cbn [arrays]. by rewrite lookup_insert_ne.
      - exists aj. cbn [arrays]. by rewrite lookup_insert_ne. }
    assert (length (contents st sl) = len sl) as Hlen.
    { rewrite Hhdr. destruct (mm !! k) as [s0|] eqn:Hk; cbn [from_option id]; [|done].
      apply length_contents, (Hvalid k s0 Hk). }
    split; [|split].
    + intros j sj. rewrite lookup_insert. case_decide as Hj.
      * intros [= <-]. eexists. cbn [arrays arr off len cap]. rewrite lookup_insert_eq.
        split; [done|]. rewrite length_app, Hlen. cbn [length]. rewrite length_replicate. lia.
      * intros Hsj. by apply Hothers, (Hvalid j sj).
    + unfold view at 1. cbn [maps]. rewrite lookup_insert_eq. cbn [from_option id].
      rewrite fmap_insert. unfold Add. rewrite Hidx.
      apply map_eq. intros j. rewrite !lookup_insert. case_decide as Hj.
      * f_equal. unfold contents at 1. cbn [arrays arr off len cap].
        rewrite lookup_insert_eq. cbn [from_option id]. rewrite drop_0.
        rewrite (cons_middle x), (assoc_L (++)).
        apply take_app_length'. rewrite length_app, Hlen. cbn. lia.
      * unfold view. rewrite Hm. cbn [from_option id]. rewrite !lookup_fmap.
        destruct (mm !! j) as [sj|] eqn:Hsj; [|done]. cbn.
        f_equal. by apply Hothers, (Hvalid j sj).
    + right. cbn [arr]. eauto.
Qed.

(** [v.Add] under a key the map does not have: the value goes to a new array. *)
Lemma Add_st_absent (st : store) (m : nat) (mm : gmap string slice) (k x : string) :
  maps st !! m = Some mm → valid st mm → mm !! k = None →
  ∃ sl' a xs,
    Add_st growslice m k x st
    = ((), Store (<[a := xs]> (arrays st)) (<[m := <[k := sl']> mm]> (maps st)) (reqs st))
    ∧ arrays st !! a = None
    ∧ valid (Store (<[a := xs]> (arrays st)) (<[m := <[k := sl']> mm]> (maps st)) (reqs st))
            (<[k := sl']> mm)
    ∧ view (Store (<[a := xs]> (arrays st)) (<[m := <[k := sl']> mm]> (maps st)) (reqs st)) m
      = Add (view st m) k x.
Proof.
  intros Hm Hvalid Hk.
  assert (header st m k = nil_slice) as Hhdr
    by (unfold header; rewrite Hm; cbn [from_option id]; by rewrite Hk).
  destruct (Add_st_spec st m mm k x Hm Hvalid) as (sl' & ars' & Hst & Hv & Hview & Hcase).
  { rewrite Hhdr. cbn. lia. }
  destruct Hcase as [(_ & Hk' & _)|(Hfresh & xs & ->)]; [congruence|].
  exists sl', (arr sl'), xs. split; [|done].
  destruct (Add_st growslice m k x st) as [[] st']. cbn in Hst. by rewrite Hst.
Qed.

(** ** A new map and what was there before *)

(** Nothing that was in [st0] has been written or removed in [st]. *)
Definition extends (st0 st : store) : Prop :=
  arrays st0 ⊆ arrays st ∧ maps st0 ⊆ maps st ∧ reqs st = reqs st0.

(** The map [m] was made after [st0]: its slices lie in arrays made after
    [st0], one array per key. *)
Definition owned (st0 st : store) (m : nat) : Prop :=
  ∃ mm, maps st !! m = Some mm ∧ maps st0 !! m = None ∧ valid st mm
        ∧ (∀ k sl, mm !! k = Some sl → arrays st0 !! arr sl = None)
        ∧ (∀ k1 k2 s1 s2, mm !! k1 = Some s1 → mm !! k2 = Some s2 →
                          arr s1 = arr s2 → k1 = k2).

Lemma extends_refl (st : store) : extends st st.
Proof. by repeat split. Qed.

Lemma contents_extends (st0 st : store) (sl : slice) :
  arrays st0 ⊆ arrays st → in_bounds st0 sl →
  contents st sl = contents st0 sl ∧ in_bounds st sl.
Proof.
  intros Hsub (a & Ha & Hb). pose proof (lookup_weaken _ _ _ _ Ha Hsub) as Ha'.
  split; [unfold contents; by rewrite Ha, Ha'|by exists a].
Qed.

Lemma Add_st_owned (st0 st : store) (m : nat) (k x : string) :
  extends st0 st → owned st0 st m →
  ∃ st', Add_st growslice m k x st = ((), st')
         ∧ extends st0 st' ∧ owned st0 st' m ∧ view st' m = Add (view st m) k x.
Proof.
  intros (Harr & Hmaps & Hreqs) (mm & Hm & Hm0 & Hvalid & Hnew & Hinj).
  assert (header st m k = default nil_slice (mm !! k)) as Hhdr
    by (unfold header; by rewrite Hm).
  destruct (Add_st_spec st m mm k x Hm Hvalid) as (sl' & ars' & Hst & Hv & Hview & Hcase).
  { rewrite Hhdr. intros Hroom k' sl' Hk' Hsl' Heq.
    destruct (mm !! k) as [s0|] eqn:Hk; cbn in Hroom, Heq; [|lia].
    apply Hk'. by apply (Hinj k' k sl' s0). }
  eexists. split.
  { destruct (Add_st growslice m k x st) as [[] st']. cbn in Hst. by rewrite Hst. }
  assert (arrays st0 !! arr sl' = None ∧ ∃ a, ars' = <[arr sl' := a]> (arrays st))
    as (Hsl' & a & ->).
  { destruct Hcase as [(Heq & Hk & Ha)|(Hfresh & Ha)].
    - split; [|done]. rewrite Heq. by apply (Hnew k).
    - split; [|done]. by apply (lookup_weaken_None _ _ _ Hfresh). }
  split; [|split; [|done]].
  - repeat split; cbn [arrays maps reqs]; [| |done].
    + by apply insert_subseteq_r.
    + by apply insert_subseteq_r.
  - exists (<[k := sl']> mm). cbn [maps]. rewrite lookup_insert_eq.
    split; [done|]. split; [done|]. split; [done|]. split.
    + intros j sj. rewrite lookup_insert. case_decide; [by intros [= <-]|apply Hnew].
    + assert (∀ j sj, j ≠ k → mm !! j = Some sj → arr sj ≠ arr sl') as Hdiff.
      { intros j sj Hj Hsj Heq. destruct Hcase as [(Heq' & Hk & _)|(Hfresh & _)].
        - apply Hj. apply (Hinj j k sj (header st m k)); [done|done|congruence].
        - destruct (Hvalid j sj Hsj) as (aj & Haj & _). congruence. }
      intros k1 k2 s1 s2. rewrite !lookup_insert. repeat case_decide; subst.
      * done.
      * intros [= <-] H2 Heq. exfalso. by apply (Hdiff k2 s2).
      * intros H1 [= <-] Heq. exfalso. by apply (Hdiff k1 s1).
      * apply Hinj.
Qed.

(** The loop of [parseQuery] on a new map reads the query as [parseQuery]
    does, and writes nothing that was there before. *)
Lemma parseQuery_st_owned (fuel : nat) (st0 st : store) (m : nat) err (query : string) :
  extends st0 st → owned st0 st m →
  ∃ e st', parseQuery_st growslice fuel m err query st = (e, st')
           ∧ extends st0 st' ∧ owned st0 st' m
           ∧ parseQuery fuel (view st m) err query = (view st' m, e).
Proof.
  revert st err query. induction fuel as [|fuel IH]; intros st err query Hext Hown.
  { eexists _, _. split; [reflexivity|]. by split; [|split]. }
  destruct query as [|c query].
  { eexists _, _. split; [reflexivity|]. by split; [|split]. }
  cbn [parseQuery_st parseQuery].
  destruct (Strings.Cut (String c query) "&") as [[key query'] found].
  destruct (Strings.Contains key ";"); [by apply IH|].
  destruct (decide (key = "")); [by apply IH|].
  destruct (Strings.Cut key "=") as [[k x] ?].
  destruct (QueryUnescape k) as [k'|]; [|by apply IH].
  destruct (QueryUnescape x) as [x'|]; [|by apply IH].
  destruct (Add_st_owned st0 st m k' x' Hext Hown) as (st1 & Hadd & Hext1 & Hown1 & Hview1).
  unfold mbind, M_bind. rewrite Hadd, <-Hview1. by apply IH.
Qed.

(** [u.Query()] makes a new map that holds the parsed query. *)
Lemma Query_st_spec (st : store) (u : URL.URL) :
  ∃ m st', Query_st growslice u st = (m, st')
           ∧ extends st st' ∧ owned st st' m ∧ view st' m = Query u.
Proof.
  unfold Query_st, mbind, M_bind, make_map, mret, M_ret.
  set (m := fresh (dom (maps st))).
  assert (maps st !! m = None) as Hm by apply not_elem_of_dom, is_fresh.
  set (st1 := set_maps (insert m ∅) st).
  assert (extends st st1) as Hext.
  { split; [done|]. split; [|done]. cbn. by apply insert_subseteq. }
  assert (owned st st1 m) as Hown.
  { exists ∅. cbn. rewrite lookup_insert_eq.
    split; [done|]. split; [done|]. split; [apply map_Forall_empty|]. split.
    - intros k sl. by rewrite lookup_empty.
    - intros k1 k2 s1 s2. by rewrite lookup_empty. }
  destruct (parseQuery_st_owned (String.length (RawQuery u)) st st1 m None (RawQuery u)
              Hext Hown) as (e & st' & -> & Hext' & Hown' & Hparse).
  exists m, st'. split; [reflexivity|]. split; [done|]. split; [done|].
  unfold Query, ParseQuery.
  assert (view st1 m = ∅) as Hv.
  { unfold view, st1. cbn. rewrite lookup_insert_eq. cbn. apply fmap_empty. }
  rewrite Hv in Hparse. by rewrite Hparse.
Qed.

(** [v.Del] on a map made after [st0]. *)
Lemma Del_st_owned (st0 st : store) (m : nat) (k : string) :
  extends st0 st → owned st0 st m →
  ∃ st', Del_st m k st = ((), st')
         ∧ extends st0 st' ∧ owned st0 st' m ∧ view st' m = Del (view st m) k.
Proof.
  intros (Harr & Hmaps & Hreqs) (mm & Hm & Hm0 & Hvalid & Hnew & Hinj).
  exists (Store (arrays st) (<[m := delete k mm]> (maps st)) (reqs st)).
  split; [unfold Del_st, modify, set_maps; by rewrite Hm|].
  split; [|split].
  - split; [done|]. split; [|done]. cbn [maps]. by apply insert_subseteq_r.
  - exists (delete k mm). cbn [maps]. rewrite lookup_insert_eq.
    split; [done|]. split; [done|]. split; [|split].
    + intros j sj [_ Hsj]%lookup_delete_Some. destruct (Hvalid j sj Hsj) as (a & ?).
      by exists a.
    + intros j sj [_ Hsj]%lookup_delete_Some. by apply (Hnew j).
    + intros k1 k2 s1 s2 [_ H1]%lookup_delete_Some [_ H2]%lookup_delete_Some.
      by apply Hinj.
  - unfold view, Del. cbn [maps]. rewrite lookup_insert_eq, Hm. cbn [from_option id].
    apply fmap_delete.
Qed.

(** Three deletions in a row on a map made after [st0]. *)
Lemma Del_st_owned_3 (st0 st : store) (m : nat) (k1 k2 k3 : string) :
  extends st0 st → owned st0 st m →
  ∃ st', (Del_st m k1;; Del_st m k2;; Del_st m k3;; mret (Some m, @None Error)) st
         = ((Some m, None), st')
         ∧ extends st0 st' ∧ owned st0 st' m
         ∧ view st' m = Del (Del (Del (view st m) k1) k2) k3.
Proof.
  intros Hext Hown.
  destruct (Del_st_owned st0 st m k1 Hext Hown) as (st1 & H1 & Hext1 & Hown1 & Hv1).
  destruct (Del_st_owned st0 st1 m k2 Hext1 Hown1) as (st2 & H2 & Hext2 & Hown2 & Hv2).
  destruct (Del_st_owned st0 st2 m k3 Hext2 Hown2) as (st3 & H3 & Hext3 & Hown3 & Hv3).
  exists st3. unfold mbind, M_bind. rewrite H1, H2, H3.
  split; [reflexivity|]. split; [done|]. split; [done|]. by rewrite Hv3, Hv2, Hv1.
Qed.

(** The lines behind the switch, on a map made after [st0], against the
    same lines of [Validate] on the map's view. *)
Lemma verify_st_spec (st0 st : store) (req : Request) (pKey : string) (m : nat) :
  extends st0 st → owned st0 st m →
  let v := view st m in
  let data := Get v "data" in
  let encHash := encHashOf pKey (Method req +:+ ":" +:+ Encode (Del v "data")) in
  ∃ res st', verify_st req pKey m st = (res, st') ∧ extends st0 st'
    ∧ ((encHash ≠ data
        ∧ res = (None, Some (newError StatusUnauthorized (mismatch_msg encHash data))))
       ∨ (encHash = data ∧ res = (Some m, None)
          ∧ view st' m = Del (Del (Del v "data") "apikey") "ts")).
Proof.
  intros Hext Hown. cbv zeta.
  destruct (Del_st_owned st0 st m "data" Hext Hown) as (st1 & H1 & Hext1 & Hown1 & Hv1).
  unfold verify_st, mbind, M_bind, Get_st, Encode_st, gets. rewrite H1, Hv1.
  destruct (decide (encHashOf pKey (Method req +:+ ":" +:+ Encode (Del (view st m) "data"))
                    ≠ Get (view st m) "data")) as [Hne|Heq].
  - eexists _, _. split; [reflexivity|]. split; [exact Hext1|]. left. by split.
  - apply dec_stable in Heq.
    destruct (Del_st_owned st0 st1 m "apikey" Hext1 Hown1) as (st2 & H2 & Hext2 & Hown2 & Hv2).
    destruct (Del_st_owned st0 st2 m "ts" Hext2 Hown2) as (st3 & H3 & Hext3 & Hown3 & Hv3).
    rewrite H2, H3. eexists _, _. split; [reflexivity|]. split; [exact Hext3|]. right.
    split; [exact Heq|]. split; [reflexivity|]. by rewrite Hv3, Hv2, Hv1.
Qed.

(** [Validate] on a pointer returns what [Validate] returns on the request
    pointed to, the map as a new object of the store, and leaves every
    request, map and array of the store as it was. *)
Lemma Validate_st_spec (now : Z) (r : nat) (req : Request) (pKey : string) (W : Z)
    (st : store) :
  reqs st !! r = Some req →
  ∃ vo e st', Validate_st growslice now r pKey W st = (Some (vo, e), st')
              ∧ extends st st'
              ∧ Validate now req pKey W = (view st' <$> vo, e)
              ∧ from_option (fun m => maps st !! m = None) True vo.
Proof.
  intros Hr. unfold Validate_st. rewrite Hr.
  destruct (Query_st_spec st (URL req)) as (m & st1 & HQ & Hext1 & Hown1 & Hview1).
  assert (maps st !! m = None) as Hnew by (by destruct Hown1 as (? & _ & ? & _)).
  unfold mbind at 1, M_bind at 1. rewrite HQ.
  unfold mbind at 1, M_bind at 1.
  rewrite Validate_cases. cbv zeta. unfold recomputed, stripped. rewrite <-Hview1.
  destruct (decide (W = -1)) as [->|H1].
  - rewrite decide_False by lia.
    rewrite (decide_False (P := _ ∧ _)) by (intros [? _]; lia).
    destruct (verify_st_spec st st1 req pKey m Hext1 Hown1)
      as (res & st' & -> & Hext' & [(Hne & ->)|(Heq & -> & Hv)]); cbv zeta in *.
    + rewrite decide_False by exact Hne.
      eexists _, _, _. split; [reflexivity|]. split; [exact Hext'|]. by split.
    + rewrite decide_True by exact Heq.
      eexists _, _, _. split; [reflexivity|]. split; [exact Hext'|]. cbn. by rewrite Hv.
  - destruct (decide (W = -2)) as [->|H2].
    + destruct (Del_st_owned_3 st st1 m "data" "apikey" "ts" Hext1 Hown1)
        as (st' & -> & Hext' & _ & Hv).
      eexists _, _, _. split; [reflexivity|]. split; [exact Hext'|]. cbn. by rewrite Hv.
    + unfold mbind at 1, M_bind at 1, Get_st at 1, gets at 1.
      destruct (isValidTS now (Get (view st1 m) "ts") W) as [reason ok] eqn:Hts.
      cbn [fst snd]. destruct ok; cbn [negb].
      * rewrite (decide_False (P := _ ∧ _)) by (intros [_ ?]; discriminate).
        destruct (verify_st_spec st st1 req pKey m Hext1 Hown1)
          as (res & st' & -> & Hext' & [(Hne & ->)|(Heq & -> & Hv)]); cbv zeta in *.
        -- rewrite decide_False by exact Hne.
           eexists _, _, _. split; [reflexivity|]. split; [exact Hext'|]. by split.
        -- rewrite decide_True by exact Heq.
           eexists _, _, _. split; [reflexivity|]. split; [exact Hext'|]. cbn. by rewrite Hv.
      * rewrite decide_True by (by split).
        eexists _, _, _. split; [reflexivity|]. split; [exact Hext1|]. by split.
Qed.

(** ** Signing a map of the caller *)

Lemma map_fold_insert_all {A} (mm : gmap string A) :
  map_fold (fun k o acc => <[k := o]> acc) ∅ mm = mm.
Proof. by apply (map_fold_weak_ind (fun (r m : gmap string A) => r = m)); [|intros; subst]. Qed.

Lemma valid_arrays (st st' : store) (mm : gmap string slice) :
  arrays st' = arrays st → valid st mm → valid st' mm.
Proof.
  intros Heq Hv k sl Hk. destruct (Hv k sl Hk) as (a & Ha & ?). exists a. by rewrite Heq.
Qed.

Lemma view_lookup_None (st : store) (m : nat) (mm : gmap string slice) (k : string) :
  maps st !! m = Some mm → view st m !! k = None → mm !! k = None.
Proof.
  intros Hm. unfold view. rewrite Hm. cbn [from_option id]. rewrite lookup_fmap.
  by destruct (mm !! k).
Qed.

(** [v.Add] on the map [m] writes no other map and no request. *)
Lemma Add_st_other (st : store) (m j : nat) (k x : string) :
  j ≠ m →
  maps (Add_st growslice m k x st).2 !! j = maps st !! j
  ∧ reqs (Add_st growslice m k x st).2 = reqs st.
Proof.
  intros Hj. unfold Add_st, mbind, M_bind, gets, assign, modify, append.
  destruct (len (header st m k) <? cap (header st m k))%nat; cbn;
    by rewrite lookup_insert_ne.
Qed.

(** Whatever the caller's map holds, [SignQS] leaves the map object as it
    was: no key is added to it and no header in it is replaced. *)
Lemma SignQS_st_maps (now : Z) (method key pKey : string) (mc : nat)
    (mm : gmap string slice) (st : store) :
  maps st !! mc = Some mm →
  maps (SignQS_st growslice now method key pKey (Some mc) st).2 !! mc = Some mm
  ∧ reqs (SignQS_st growslice now method key pKey (Some mc) st).2 = reqs st.
Proof.
  intros Hmc. unfold SignQS_st, mbind, M_bind, make_map, range_assign, modify,
    Encode_st, gets.
  set (v := fresh (dom (maps st))).
  assert (mc ≠ v) as Hv.
  { intros ->. pose proof (is_fresh (dom (maps st))) as Hf.
    apply Hf, elem_of_dom. by eexists. }
  set (st2 := set_maps _ (set_maps (insert v ∅) st)).
  assert (maps st2 !! mc = Some mm ∧ reqs st2 = reqs st) as [H2 R2].
  { unfold st2. cbn. by rewrite !lookup_insert_ne. }
  pose proof (Add_st_other st2 v mc "apikey" key Hv) as [H3 R3].
  destruct (Add_st growslice v "apikey" key st2) as [[] st3]. cbn [snd] in H3, R3.
  pose proof (Add_st_other st3 v mc "ts" (Fmt.Sprintd now) Hv) as [H4 R4].
  destruct (Add_st growslice v "ts" (Fmt.Sprintd now) st3) as [[] st4]. cbn [snd] in H4, R4.
  set (mac := encHashOf pKey _).
  pose proof (Add_st_other st4 v mc "data" mac Hv) as [H5 R5].
  destruct (Add_st growslice v "data" mac st4) as [[] st5]. cbn [snd] in *.
  split; congruence.
Qed.

(** For a caller's map whose slices lie in their arrays and which has
    none of the reserved keys, [SignQS] on the reference returns what
    [SignQS] returns on the map's view, and leaves the view as it was. *)
Lemma SignQS_st_spec (now : Z) (method key pKey : string) (mc : nat)
    (mm : gmap string slice) (st : store) :
  maps st !! mc = Some mm → valid st mm → no_envelope (view st mc) →
  ∃ st', SignQS_st growslice now method key pKey (Some mc) st
         = (SignQS now method key pKey (Some (view st mc)), st')
         ∧ arrays st ⊆ arrays st' ∧ view st' mc = view st mc.
Proof.
  intros Hmc Hvalid (Hk & Ht & Hd).
  apply (view_lookup_None st mc mm) in Hk, Ht, Hd; [|done..].
  unfold SignQS_st. unfold mbind at 1 2, M_bind at 1 2, make_map, range_assign, modify.
  set (v := fresh (dom (maps st))).
  assert (mc ≠ v) as Hv.
  { intros ->. pose proof (is_fresh (dom (maps st))) as Hf.
    apply Hf, elem_of_dom. by eexists. }
  assert (set_maps (fun ms => <[v := map_fold (fun k o acc => <[k := o]> acc)
                                              (default ∅ (ms !! v)) (default ∅ (ms !! mc))]> ms)
                   (set_maps (insert v ∅) st)
          = Store (arrays st) (<[v := mm]> (maps st)) (reqs st)) as ->.
  { unfold set_maps. cbn [maps arrays reqs].
    rewrite lookup_insert_eq, lookup_insert_ne, Hmc by done. cbn [from_option id].
    by rewrite map_fold_insert_all, insert_insert_eq. }
  set (st2 := Store (arrays st) (<[v := mm]> (maps st)) (reqs st)).
  assert (view st2 v = view st mc) as Hview2.
  { unfold view, st2, contents. cbn [maps arrays]. by rewrite lookup_insert_eq, Hmc. }
  destruct (Add_st_absent st2 v mm "apikey" key) as (sl3 & a3 & xs3 & E3 & F3 & V3 & W3);
    [apply lookup_insert_eq|by apply (valid_arrays st)|done|].
  unfold mbind at 1, M_bind at 1. rewrite E3.
  set (st3 := Store (<[a3 := xs3]> _) _ _) in *.
  destruct (Add_st_absent st3 v (<["apikey" := sl3]> mm) "ts" (Fmt.Sprintd now))
    as (sl4 & a4 & xs4 & E4 & F4 & V4 & W4);
    [apply lookup_insert_eq|done|by rewrite lookup_insert_ne|].
  unfold mbind at 1, M_bind at 1. rewrite E4.
  set (st4 := Store (<[a4 := xs4]> _) _ _) in *.
  unfold mbind at 1, M_bind at 1, Encode_st at 1, gets at 1.
  set (mac := encHashOf pKey _).
  destruct (Add_st_absent st4 v (<["ts" := sl4]> (<["apikey" := sl3]> mm)) "data" mac)
    as (sl5 & a5 & xs5 & E5 & F5 & V5 & W5);
    [apply lookup_insert_eq|done|by rewrite !lookup_insert_ne|].
  unfold mbind at 1, M_bind at 1. rewrite E5.
  set (st5 := Store (<[a5 := xs5]> _) _ _) in *.
  exists st5. split; [|split].
  - unfold Encode_st, gets. f_equal.
    rewrite W5, W4, W3, Hview2. unfold mac. rewrite W4, W3, Hview2.
    rewrite SignQS_eq. unfold canonical, to_sign. by rewrite copy_entries_default.
  - unfold st5, st4, st3, st2. cbn [arrays] in *.
    etrans; [|apply insert_subseteq; exact F5].
    etrans; [|apply insert_subseteq; exact F4].
    by apply insert_subseteq.
  - assert (arrays st ⊆ arrays st5) as Hsub.
    { unfold st5, st4, st3, st2. cbn [arrays] in *.
      etrans; [|apply insert_subseteq; exact F5].
      etrans; [|apply insert_subseteq; exact F4].
      by apply insert_subseteq. }
    unfold view. unfold st5 at 2, st4, st3, st2. cbn [maps].
    rewrite !lookup_insert_ne, Hmc by done. cbn [from_option id].
    apply map_eq. intros j. rewrite !lookup_fmap.
    destruct (mm !! j) as [sj|] eqn:Hj; [|done]. cbn. f_equal.
    by apply contents_extends, (Hvalid j sj).
Qed.

End growth.

End MemFacts.

Import Mem MemFacts.

(** ** What signing and validating leave in memory *)

(** C7 (as amended): for every caller's map whose slices lie within their
    backing arrays and which has none of the keys [apikey], [ts], [data],
    [SignQS] adds the public key, the timestamp and the signature to a copy:
    after the call the caller's map object, and the values it shows, are
    what they were, the query returned is the one [SignQS] computes from
    those values, and a second call at the same clock reading returns the
    same query. *)
Theorem SignQS_leaves_input (growslice : nat → nat) (now : Z) (method key pKey : string)
    (mc : nat) (mm : gmap string slice) (st : store) :
  maps st !! mc = Some mm → valid st mm → no_envelope (view st mc) →
  let '(q, st') := SignQS_st growslice now method key pKey (Some mc) st in
  maps st' !! mc = Some mm
  ∧ view st' mc = view st mc
  ∧ q = SignQS now method key pKey (Some (view st mc))
  ∧ (SignQS_st growslice now method key pKey (Some mc) st').1 = q.
Proof.
  intros Hmc Hvalid Henv.
  destruct (SignQS_st_maps growslice now method key pKey mc mm st Hmc) as [Hmaps _].
  destruct (SignQS_st_spec growslice now method key pKey mc mm st Hmc Hvalid Henv)
    as (st' & Heq & Hsub & Hview).
  rewrite Heq in Hmaps |- *. cbn [snd] in Hmaps.
  split; [exact Hmaps|]. split; [exact Hview|]. split; [reflexivity|].
  destruct (SignQS_st_spec growslice now method key pKey mc mm st' Hmaps) as (st'' & -> & _).
  - intros k sl Hk. by apply (contents_extends st st'), (Hvalid k sl).
  - by rewrite Hview.
  - cbn [fst]. by rewrite Hview.
Qed.

(** A store with the caller's map [{"foo": ["bar"]}], the list in an array
    of its own. *)
Definition store_foo_bar : store :=
  Store {[ 0%nat := ["bar"] ]} {[ 0%nat := {[ "foo" := Slice 0 0 1 1 ]} ]} ∅.

Lemma SignQS_leaves_input_witness :
  let '(q, st') := SignQS_st double 1700000000 "GET" "pub1" "s3cr3t" (Some 0%nat) store_foo_bar in
  maps st' !! 0%nat = Some {[ "foo" := Slice 0 0 1 1 ]}
  ∧ view st' 0 = view store_foo_bar 0
  ∧ q = SignQS 1700000000 "GET" "pub1" "s3cr3t" (Some (view store_foo_bar 0))
  ∧ (SignQS_st double 1700000000 "GET" "pub1" "s3cr3t" (Some 0%nat) st').1 = q.
Proof.
  refine (SignQS_leaves_input double 1700000000 "GET" "pub1" "s3cr3t" 0
            {[ "foo" := Slice 0 0 1 1 ]} store_foo_bar _ _ _).
  - reflexivity.
  - intros k sl [<- <-]%lookup_singleton_Some. exists ["bar"].
    split; [reflexivity|]. cbn. lia.
  - apply (bool_decide_unpack _). vm_compute. exact I.
Defined.

(** C7 (as stated) fails for a map that has the key [apikey] with room
    left behind its value, in an array that holds the value of another
    key: [SignQS] appends the public key in place, over the value of [foo]. *)
Lemma SignQS_shared_array_counterexample :
  let st := Store {[ 0%nat := ["x"; "y"] ]}
                  {[ 0%nat := {[ "apikey" := Slice 0 0 1 2; "foo" := Slice 0 1 1 1 ]} ]} ∅ in
  let st' := (SignQS_st double 1700000000 "GET" "pub1" "s3cr3t" (Some 0%nat) st).2 in
  view st 0 = {[ "apikey" := ["x"]; "foo" := ["y"] ]}
  ∧ view st' 0 = {[ "apikey" := ["x"]; "foo" := ["pub1"] ]}
  ∧ view st' 0 ≠ view st 0.
Proof. vm_compute. repeat split; [reflexivity..|discriminate]. Qed.

(** The [Sign] of the revision without [SignQS] adds [apikey] and [ts] to
    the caller's map itself. *)
Lemma Sign0_st_adds_to_input :
  let st' := (Sign0_st double 1700000000 "GET" "pub1" "s3cr3t" "http://h/p" (Some 0%nat)
                store_foo_bar).2 in
  view st' 0 = {[ "apikey" := ["pub1"]; "foo" := ["bar"]; "ts" := ["1700000000"] ]}.
Proof. vm_compute. reflexivity. Qed.

(** C8: for every store and every pointer [r], after [Validate] returns,
    with a map or with an error, every request of the store (so the URL
    and raw query of the one [r] points to) is what it was, and so is
    every map and array that existed; the map returned is a new object,
    and what it shows, like the error, is what [Validate] computes from
    the request. *)
Theorem Validate_leaves_request (growslice : nat → nat) (now : Z) (r : nat) (pKey : string)
    (W : Z) (st : store) :
  let '(res, st') := Validate_st growslice now r pKey W st in
  reqs st' = reqs st ∧ arrays st ⊆ arrays st' ∧ maps st ⊆ maps st'
  ∧ match reqs st !! r with
    | None => res = None
    | Some req =>
        ∃ vo e, res = Some (vo, e)
                ∧ Validate now req pKey W = (view st' <$> vo, e)
                ∧ from_option (fun m => maps st !! m = None) True vo
    end.
Proof.
  destruct (reqs st !! r) as [req|] eqn:Hr.
  - destruct (Validate_st_spec growslice now r req pKey W st Hr)
      as (vo & e & st' & -> & (Ha & Hm & Hq) & Hres & Hnew).
    split; [exact Hq|]. split; [exact Ha|]. split; [exact Hm|]. by exists vo, e.
  - unfold Validate_st. rewrite Hr. by repeat split.
Qed.

(** * Further properties of the package *)

(** ** What [Validate] returns *)

Lemma stripped_filter (v : Values) :
  stripped v = filter (fun kv => kv.1 ∉ ["apikey"; "ts"; "data"]) v.
Proof.
  apply map_eq. intros k. apply option_eq. intros xs. unfold stripped, Del.
  rewrite map_lookup_filter_Some, !lookup_delete_Some. cbn [fst].
  rewrite !not_elem_of_cons.
  pose proof (not_elem_of_nil k).
  split; intros; destruct_and?; repeat split; try assumption; congruence.
Qed.

Lemma parseQuery_nonempty (fuel : nat) (m : Values) err (query : string) :
  nonempty_values m → nonempty_values (parseQuery fuel m err query).1.
Proof.
  revert m err query. induction fuel as [|fuel IH]; intros m err query Hm; [done|].
  destruct query as [|c query]; [done|]. cbn [parseQuery].
  destruct (Strings.Cut (String c query) "&") as [[key query'] found].
  destruct (Strings.Contains key ";"); [by apply IH|].
  destruct (decide (key = "")); [by apply IH|].
  destruct (Strings.Cut key "=") as [[k x] ?].
  destruct (QueryUnescape k) as [k'|]; [|by apply IH].
  destruct (QueryUnescape x) as [x'|]; [|by apply IH].
  by apply IH, nonempty_values_Add.
Qed.

(** Every key of a parsed query has at least one value. *)
Lemma Query_nonempty (u : URL.URL) : nonempty_values (Query u).
Proof. apply parseQuery_nonempty, map_Forall_empty. Qed.

Lemma nonempty_values_Del (v : Values) (k : string) :
  nonempty_values v → nonempty_values (Del v k).
Proof.
  intros Hv j xs. unfold Del. intros [_ Hj]%lookup_delete_Some. by apply (Hv j).
Qed.

(** X1: for every request, key, window and clock reading, [Validate]
    returns either a map and no error, or no map and an error with status
    401 or 406, never both and never neither; a returned map is the parsed
    query of the request without the keys [apikey], [ts], [data], every
    other key with its values, each key with at least one value. *)
Theorem Validate_result_shape (now : Z) (r : Request) (pKey : string) (W : Z) :
  match Validate now r pKey W with
  | (Some v, None) =>
      v = filter (fun kv => kv.1 ∉ ["apikey"; "ts"; "data"]) (Query (URL r))
      ∧ nonempty_values v
  | (None, Some e) => Status e = 401 ∨ Status e = 406
  | _ => False
  end.
Proof.
  rewrite Validate_cases. cbv zeta.
  assert (stripped (Query (URL r))
          = filter (fun kv => kv.1 ∉ ["apikey"; "ts"; "data"]) (Query (URL r))
          ∧ nonempty_values (stripped (Query (URL r)))) as Hok.
  { split; [apply stripped_filter|].
    unfold stripped. repeat apply nonempty_values_Del. apply Query_nonempty. }
  repeat case_decide; first [exact Hok | by right | by left].
Qed.

(** X2: a request that [Validate] accepts under a window other than [-2]
    carries, as its first [data] value, the base64url HMAC-SHA256 of its
    method, a colon and the encoding of its other parameters, and, unless
    the window is [-1], its first [ts] value passed the timestamp check. *)
Theorem Validate_sound (now : Z) (r : Request) (pKey : string) (W : Z) (v : Values) :
  W ≠ -2 → Validate now r pKey W = (Some v, None) →
  Get (Query (URL r)) "data"
  = Base64.EncodeToString
      (HMAC.Sum (bytes_of_string pKey)
         (bytes_of_string (Method r +:+ ":" +:+ Encode (Del (Query (URL r)) "data"))))
  ∧ (W = -1 ∨ (isValidTS now (Get (Query (URL r)) "ts") W).2 = true).
Proof.
  intros H2. rewrite Validate_cases. cbv zeta.
  rewrite decide_False by exact H2.
  destruct (decide (W = -1)) as [->|H1].
  - rewrite (decide_False (P := _ ∧ _)) by (intros [? _]; lia).
    case_decide as Heq; [|discriminate]. intros _. split; [by symmetry|by left].
  - destruct ((isValidTS now (Get (Query (URL r)) "ts") W).2) eqn:Hts.
    + rewrite (decide_False (P := _ ∧ _)) by (intros [_ ?]; discriminate).
      case_decide as Heq; [|discriminate]. intros _. split; [by symmetry|by right].
    + rewrite decide_True by (by split). discriminate.
Qed.

Lemma Validate_sound_witness :
  Get (Query {| RawQuery := SignQS 1700000000 "GET" "pub1" "s3cr3t" foo_bar |}) "data"
  = "uvjXS-oziFmOVAt4cXzshE4wjiLVrRuiHjCZh4y6jpA=".
Proof.
  refine (eq_trans (proj1 (Validate_sound 1700000005
            (request "GET" (SignQS 1700000000 "GET" "pub1" "s3cr3t" foo_bar)) "s3cr3t" 60
            {["foo" := ["bar"]]} _ _)) _).
  - lia.
  - vm_compute. reflexivity.
  - vm_compute. reflexivity.
Defined.

(** X3: a request whose first [ts] value does not parse as a base-10
    [int64], in particular one without a [ts] parameter, is refused under
    every window other than [-1] and [-2] with status 406 and the message
    [invalid timestamp] followed by the value, whatever its signature. *)
Theorem Validate_unparsable_ts (now : Z) (r : Request) (pKey : string) (W : Z) :
  W ≠ -1 → W ≠ -2 →
  Query (URL r) !! "ts" = None
  ∨ (∃ e, Strconv.ParseInt (Get (Query (URL r)) "ts") = inr e) →
  Validate now r pKey W
  = (None, Some {| s := "invalid timestamp " +:+ Get (Query (URL r)) "ts"; Status := 406 |}).
Proof.
  intros H1 H2 Hts.
  assert (∃ e, Strconv.ParseInt (Get (Query (URL r)) "ts") = inr e) as [e He].
  { destruct Hts as [Hnone|?]; [|done]. exists Strconv.ErrSyntax.
    unfold Get, index. by rewrite Hnone. }
  rewrite Validate_cases. cbv zeta. rewrite decide_False by exact H2.
  rewrite (isValidTS_invalid _ _ _ e He). cbn [fst snd].
  rewrite decide_True by (by split). reflexivity.
Qed.

Lemma Validate_unparsable_ts_witness :
  Validate 1700000000 (request "GET" "apikey=pub1&data=x&foo=bar") "s3cr3t" 60
  = (None, Some {| s := "invalid timestamp "; Status := 406 |})
  ∧ Validate 1700000000 (request "GET" "ts=12x4") "s3cr3t" 60
    = (None, Some {| s := "invalid timestamp 12x4"; Status := 406 |}).
Proof.
  split.
  - refine (eq_trans (Validate_unparsable_ts 1700000000
              (request "GET" "apikey=pub1&data=x&foo=bar") "s3cr3t" 60 _ _ _) _);
      [lia | lia | left; vm_compute; reflexivity | vm_compute; reflexivity].
  - refine (eq_trans (Validate_unparsable_ts 1700000000
              (request "GET" "ts=12x4") "s3cr3t" 60 _ _ _) _);
      [lia | lia | right; exists Strconv.ErrSyntax; vm_compute; reflexivity
      | vm_compute; reflexivity].
Defined.

(** ** The timestamp check, away from the overflow *)

(** X4: for a [ts] that parses to [i] with [|now - i| < 2 ^ 63] (the
    subtraction does not overflow) and a window that is an [int64],
    [isValidTS] returns the label [expired] and whether [|now - i| <= W]:
    the check is symmetric in past and future, a negative window refuses. *)
Theorem isValidTS_window (now i W : Z) (ts : string) :
  Strconv.ParseInt ts = inl i → Int64.in_range W → Z.abs (now - i) < 2 ^ 63 →
  isValidTS now ts W = ("expired", bool_decide (Z.abs (now - i) <= W))
  ∧ isValidTS now ts W = isValidTS (2 * i - now) ts W
  ∧ (W < 0 → isValidTS now ts W = ("expired", false)).
Proof.
  intros Hts HW Habs.
  rewrite (isValidTS_exact now i W ts Hts HW Habs).
  split; [reflexivity|]. split.
  - rewrite (isValidTS_exact (2 * i - now) i W ts Hts HW) by lia.
    f_equal. apply bool_decide_ext. lia.
  - intros Hneg. f_equal. apply bool_decide_eq_false_2. lia.
Qed.

Lemma isValidTS_window_witness :
  isValidTS 1700000000 "1699999940" 60 = ("expired", true)
  ∧ isValidTS 1700000000 "1700000061" 60 = ("expired", false).
Proof.
  assert (Int64.in_range 60) as HW by (unfold Int64.in_range, Int64.min, Int64.max; lia).
  split.
  - refine (eq_trans (proj1 (isValidTS_window 1700000000 1699999940 60 "1699999940" _ HW _)) _);
      [vm_compute; reflexivity | lia | vm_compute; reflexivity].
  - refine (eq_trans (proj1 (isValidTS_window 1700000000 1700000061 60 "1700000061" _ HW _)) _);
      [vm_compute; reflexivity | lia | vm_compute; reflexivity].
Defined.

(** X5: under a negative window (an [int64]) and an [int64] clock reading,
    the timestamp check passes for a [ts] that parses to [i] exactly when
    [|now - i| = 2 ^ 63], the one distance at which the [int64] arithmetic
    wraps to the least value; so [Validate] under a negative window other
    than [-1] and [-2] returns the 406 error for every other request. *)
Theorem negative_window_refuses (now : Z) (r : Request) (pKey : string) (W : Z) :
  Int64.in_range now → Int64.in_range W → W < 0 →
  (∀ i, Strconv.ParseInt (Get (Query (URL r)) "ts") = inl i →
        ((isValidTS now (Get (Query (URL r)) "ts") W).2 = true ↔ Z.abs (now - i) = 2 ^ 63))
  ∧ (W ≠ -1 → W ≠ -2 →
     (∀ i, Strconv.ParseInt (Get (Query (URL r)) "ts") = inl i → Z.abs (now - i) ≠ 2 ^ 63) →
     (Validate now r pKey W).1 = None
     ∧ ∃ e, (Validate now r pKey W).2 = Some e ∧ Status e = 406).
Proof.
  intros Hnow HW Hneg. split.
  - intros i Hi. apply isValidTS_negative_window; try assumption.
    by apply (ParseInt_range _ _ Hi).
  - intros H1 H2 Hts. by apply Validate_negative_window.
Qed.

Lemma negative_window_refuses_witness :
  (Validate 1700000000 (request "GET" (SignQS 1700000000 "GET" "pub1" "s3cr3t" foo_bar))
     "s3cr3t" (-3)).1 = None.
Proof.
  assert (Int64.in_range 1700000000 ∧ Int64.in_range (-3)) as [Hnow HW]
    by (unfold Int64.in_range, Int64.min, Int64.max; lia).
  refine (proj1 (proj2 (negative_window_refuses 1700000000
            (request "GET" (SignQS 1700000000 "GET" "pub1" "s3cr3t" foo_bar)) "s3cr3t" (-3)
            Hnow HW _) _ _ _)); [lia | lia | lia |].
  intros i Hi. assert (i = 1700000000) as -> by (vm_compute in Hi; congruence).
  vm_compute. discriminate.
Defined.

(** ** Signed queries and URLs *)

(** A query signed by [SignQS], for a parameter set without the reserved
    keys and without empty value lists, is accepted under the window [-1]
    at every clock reading and under a window that holds the signing time. *)
Lemma signed_query_accepted (now_s now W : Z) (method key pKey : string)
    (values : option Values) :
  no_envelope (default ∅ values) → nonempty_values (default ∅ values) →
  W = -1 ∨ (Int64.in_range now_s ∧ Int64.in_range now ∧ Int64.in_range W
            ∧ Z.abs (now - now_s) <= W) →
  Validate now (request method (SignQS now_s method key pKey values)) pKey W
  = (Some (default ∅ values), None).
Proof.
  intros Henv Hne Hwin.
  destruct (to_sign_lookup now_s key values Henv) as (Hdata & Hts & Hdel).
  rewrite Validate_cases. unfold recomputed. cbn [request URL Method].
  rewrite Query_SignQS by done. cbv zeta.
  rewrite decide_False by (destruct Hwin as [->|(_ & _ & _ & ?)]; lia).
  rewrite Get_Add_ne, Hts by done.
  rewrite (decide_False (P := _ ∧ _)).
  - rewrite Get_Add_fresh, Del_Add_fresh by done.
    rewrite decide_True by done.
    unfold stripped. by rewrite Del_Add_fresh, Hdel.
  - intros [H1 Hf]. destruct Hwin as [?|(Hs & Hnow & HW & Habs)]; [done|].
    rewrite (isValidTS_fresh now now_s W) in Hf by auto using ParseInt_Sprintd.
    discriminate.
Qed.

(** X6: under the window [-1] a query signed by [SignQS] (parameter set
    without the reserved keys and without empty value lists) is accepted
    at every clock reading, however long after (or before) the signing
    time, and [Validate] returns the original parameter set. *)
Theorem round_trip_skip_window (now_s now : Z) (method key pKey : string)
    (values : option Values) :
  no_envelope (default ∅ values) → nonempty_values (default ∅ values) →
  Validate now (request method (SignQS now_s method key pKey values)) pKey (-1)
  = (Some (default ∅ values), None).
Proof. intros Henv Hne. apply signed_query_accepted; auto. Qed.

Lemma round_trip_skip_window_witness :
  Validate 4102444800 (request "GET" (SignQS 1700000000 "GET" "pub1" "s3cr3t" foo_bar))
    "s3cr3t" (-1)
  = (Some {["foo" := ["bar"]]}, None).
Proof.
  exact (round_trip_skip_window 1700000000 4102444800 "GET" "pub1" "s3cr3t" foo_bar
           foo_bar_no_envelope foo_bar_nonempty).
Defined.

(** X7: for every parameter set, whatever its keys, the query [SignQS]
    returns parses without error, and under every key the parsed query
    holds the values of the signed map: the caller's values, then the
    public key under [apikey], the timestamp under [ts] and the signature
    under [data]. *)
Theorem SignQS_parses (now : Z) (method key pKey : string) (values : option Values) :
  let signed := Add (Add (copy_entries values) "apikey" key) "ts" (Fmt.Sprintd now) in
  let mac := encHashOf pKey (method +:+ ":" +:+ Encode signed) in
  let q := SignQS now method key pKey values in
  (ParseQuery q).2 = None
  ∧ (∀ k, index (Query {| RawQuery := q |}) k = index (Add signed "data" mac) k)
  ∧ index (Query {| RawQuery := q |}) "apikey" = index (default ∅ values) "apikey" ++ [key]
  ∧ index (Query {| RawQuery := q |}) "ts" = index (default ∅ values) "ts" ++ [Fmt.Sprintd now]
  ∧ index (Query {| RawQuery := q |}) "data" = index (default ∅ values) "data" ++ [mac].
Proof.
  cbv zeta. rewrite copy_entries_default.
  assert (SignQS now method key pKey values
          = Encode (Add (Add (Add (default ∅ values) "apikey" key) "ts" (Fmt.Sprintd now)) "data"
                        (encHashOf pKey (method +:+ ":" +:+ Encode
                           (Add (Add (default ∅ values) "apikey" key) "ts" (Fmt.Sprintd now))))))
    as ->.
  { rewrite SignQS_eq. unfold canonical, to_sign. by rewrite copy_entries_default. }
  split; [by rewrite ParseQuery_Encode|].
  split; [intros k; apply index_Query_Encode|].
  rewrite !index_Query_Encode. unfold Add.
  rewrite !index_insert.
  repeat (rewrite decide_True by reflexivity || rewrite decide_False by discriminate).
  done.
Qed.

(** X8: [Sign] returns the base URL, a question mark and the signed query:
    for a base URL without a question mark, cutting at the first question
    mark gives back the URL and a query that [Validate] accepts (parameter
    set without the reserved keys and without empty value lists; window
    [-1], or one that holds the signing time), returning the parameters. *)
Theorem Sign_round_trip (now_s now W : Z) (method key pKey urlStr : string)
    (values : option Values) :
  Strings.Contains urlStr "?" = false →
  no_envelope (default ∅ values) → nonempty_values (default ∅ values) →
  W = -1 ∨ (Int64.in_range now_s ∧ Int64.in_range now ∧ Int64.in_range W
            ∧ Z.abs (now - now_s) <= W) →
  let '(base, query, found) := Strings.Cut (Sign now_s method key pKey urlStr values) "?" in
  base = urlStr ∧ found = true
  ∧ Validate now (request method query) pKey W = (Some (default ∅ values), None).
Proof.
  intros Hurl Henv Hne Hwin. unfold Sign.
  change ("?" +:+ SignQS now_s method key pKey values)
    with (String "?" (SignQS now_s method key pKey values)).
  rewrite (Cut_found _ _ _ Hurl).
  split; [reflexivity|]. split; [reflexivity|]. by apply signed_query_accepted.
Qed.

Lemma Sign_round_trip_witness :
  let '(base, query, found) :=
    Strings.Cut (Sign 1700000000 "GET" "pub1" "s3cr3t" "https://h/p" foo_bar) "?" in
  base = "https://h/p" ∧ found = true
  ∧ Validate 1700000005 (request "GET" query) "s3cr3t" 60 = (Some {["foo" := ["bar"]]}, None).
Proof.
  refine (Sign_round_trip 1700000000 1700000005 60 "GET" "pub1" "s3cr3t" "https://h/p" foo_bar
            _ foo_bar_no_envelope foo_bar_nonempty _).
  - vm_compute. reflexivity.
  - right. unfold Int64.in_range, Int64.min, Int64.max. lia.
Defined.

(** ** The earlier revisions *)

(** The earlier [Validate] by cases. *)
Lemma Validate0_cases (now : Z) (r : Request) (pKey : string) (W : Z) :
  Hancock0.Validate now r pKey W =
    let v := Query (URL r) in
    let ts := Get v "ts" in
    let data := Get v "data" in
    if decide (-1 < Int64.wrap W ∧ (isValidTS now ts W).2 = false) then
      (None, Some (newError StatusNotAcceptable (timestamp_msg (isValidTS now ts W).1 ts)))
    else if decide (recomputed r pKey = data) then (Some (stripped v), None)
    else (None, Some (newError StatusUnauthorized
                        (Hancock0.mismatch_msg (recomputed r pKey) data))).
Proof.
  unfold Hancock0.Validate, recomputed, stripped.
  generalize (encHashOf pKey (Method r +:+ ":" +:+ Encode (Del (Query (URL r)) "data"))).
  generalize (Get (Query (URL r)) "data"). intros d e.
  generalize (Int64.wrap W). intros w.
  destruct (isValidTS now (Get (Query (URL r)) "ts") W) as [reason ok].
  cbn [fst snd].
  destruct (Z.ltb_spec (-1) w) as [HW|HW]; destruct ok; cbn [negb];
    repeat case_decide; try reflexivity; exfalso; try tauto; try lia; try congruence.
Qed.

(** X9: in the revision of src/hancock.go, every negative window skips
    the timestamp check and none disables verification: under any negative
    [int64] window, [-2] included, [Validate] compares the recomputed
    signature with the [data] value and answers by that alone, whatever the
    clock and the [ts] value. *)
Theorem Validate0_negative_window (now : Z) (r : Request) (pKey : string) (W : Z) :
  Int64.in_range W → W < 0 →
  let data := Get (Query (URL r)) "data" in
  let encHash := encHashOf pKey (Method r +:+ ":" +:+ Encode (Del (Query (URL r)) "data")) in
  Hancock0.Validate now r pKey W
  = if decide (encHash = data) then
      (Some (Del (Del (Del (Query (URL r)) "data") "apikey") "ts"), None)
    else
      (None, Some {| s := "signature mismatch " +:+ encHash +:+ " != " +:+ data;
                     Status := 401 |}).
Proof.
  intros HW Hneg. cbv zeta. rewrite Validate0_cases. cbv zeta.
  rewrite (wrap_in_range W HW).
  rewrite (decide_False (P := _ ∧ _)) by (intros [? _]; lia).
  reflexivity.
Qed.

Lemma Validate0_negative_window_witness :
  Hancock0.Validate 1700000000 (request "GET" "apikey=pub1&data=x&foo=bar&ts=oops") "s3cr3t" (-2)
  = (None,
     Some {| s := "signature mismatch FjOboh4r5I2qP9XLdpfjaqmM3aCUdfIHFTKEzpGVA0U= != x";
             Status := 401 |}).
Proof.
  assert (Int64.in_range (-2)) as HW by (unfold Int64.in_range, Int64.min, Int64.max; lia).
  pose proof (Validate0_negative_window 1700000000
                (request "GET" "apikey=pub1&data=x&foo=bar&ts=oops") "s3cr3t" (-2) HW
                ltac:(lia)) as H.
  cbv zeta in H. rewrite H. vm_compute. reflexivity.
Defined.

(** X10: under the window [-1] and under every non-negative [int64]
    window the two revisions of [Validate] agree: they return the same
    map, or errors with the same status (the messages differ only in the
    quoting of the two signatures). *)
Theorem Validate_revisions_agree (now : Z) (r : Request) (pKey : string) (W : Z) :
  Int64.in_range W → -1 <= W →
  (Hancock0.Validate now r pKey W).1 = (Validate now r pKey W).1
  ∧ Status <$> (Hancock0.Validate now r pKey W).2 = Status <$> (Validate now r pKey W).2.
Proof.
  intros HW Hge. rewrite Validate0_cases, Validate_cases. cbv zeta.
  rewrite (wrap_in_range W HW).
  rewrite (decide_False (P := W = -2)) by lia.
  destruct (decide (W = -1)) as [->|H1].
  - rewrite !(decide_False (P := _ ∧ _)) by (intros [? _]; lia).
    by case_decide.
  - destruct ((isValidTS now (Get (Query (URL r)) "ts") W).2) eqn:Hts.
    + rewrite !(decide_False (P := _ ∧ _)) by (intros [_ ?]; discriminate).
      by case_decide.
    + rewrite !decide_True
        by first [split; [lia|reflexivity] | split; [exact H1|reflexivity]].
      done.
Qed.

Lemma Validate_revisions_agree_witness :
  (Hancock0.Validate 1700000005
     (request "GET" (SignQS 1700000000 "GET" "pub1" "s3cr3t" foo_bar)) "s3cr3t" 60).1
  = Some {["foo" := ["bar"]]}.
Proof.
  assert (Int64.in_range 60) as HW by (unfold Int64.in_range, Int64.min, Int64.max; lia).
  pose proof (Validate_revisions_agree 1700000005
                (request "GET" (SignQS 1700000000 "GET" "pub1" "s3cr3t" foo_bar)) "s3cr3t" 60
                HW ltac:(lia)) as [H _].
  rewrite H. vm_compute. reflexivity.
Defined.

(** The two texts the revision of part_001 mixes up differ. *)
Lemma Encode_to_sign_differs (now : Z) (key : string) (values : option Values) :
  no_envelope (default ∅ values) → nonempty_values (default ∅ values) →
  Encode (to_sign now key values) ≠ Encode (default ∅ values).
Proof.
  intros (Hk & _) Hne Heq.
  assert (nonempty_values (to_sign now key values)) as Hsigned.
  { unfold to_sign. rewrite copy_entries_default. by repeat apply nonempty_values_Add. }
  pose proof (Query_Encode _ Hsigned) as H1. rewrite Heq, (Query_Encode _ Hne) in H1.
  assert (to_sign now key values !! "apikey" = None) as Habs by (by rewrite <-H1).
  unfold to_sign in Habs. rewrite lookup_Add_ne in Habs by done.
  unfold Add in Habs. by rewrite lookup_insert_eq in Habs.
Qed.

(** X11: the [SignQS] of the revision of part_001 signs the encoding of
    the caller's parameters, a text other than the one [Validate]
    recomputes the signature from (the encoding with [apikey] and [ts]):
    within the window, [Validate] accepts its query only if the HMACs of
    the two texts coincide, and otherwise returns the 401 error. *)
Theorem SignQS1_rejected (now_s now W : Z) (method key pKey : string) (values : option Values) :
  no_envelope (default ∅ values) → nonempty_values (default ∅ values) →
  W = -1 ∨ (Int64.in_range now_s ∧ Int64.in_range now ∧ Int64.in_range W
            ∧ Z.abs (now - now_s) <= W) →
  let signed := encHashOf pKey (method +:+ ":" +:+ Encode (default ∅ values)) in
  let checked := encHashOf pKey (method +:+ ":" +:+
                   Encode (Add (Add (default ∅ values) "apikey" key) "ts" (Fmt.Sprintd now_s))) in
  method +:+ ":" +:+ Encode (default ∅ values)
  ≠ method +:+ ":" +:+ Encode (Add (Add (default ∅ values) "apikey" key) "ts" (Fmt.Sprintd now_s))
  ∧ Validate now (request method (Hancock1.SignQS now_s method key pKey values)) pKey W
    = if decide (checked = signed) then (Some (default ∅ values), None)
      else (None, Some (newError StatusUnauthorized (mismatch_msg checked signed))).
Proof.
  intros Henv Hne Hwin. cbv zeta.
  pose proof (Encode_to_sign_differs now_s key values Henv Hne) as Hdiff.
  destruct (to_sign_lookup now_s key values Henv) as (Hdata & Hts & Hdel).
  unfold to_sign in *. rewrite copy_entries_default in *.
  set (sv := Add (Add (default ∅ values) "apikey" key) "ts" (Fmt.Sprintd now_s)) in *.
  split.
  { intros Heq. apply Hdiff. symmetry. rewrite <-!str_app_assoc in Heq.
    exact (String.app_inj _ _ _ Heq). }
  assert (nonempty_values sv) as Hsv by (by repeat apply nonempty_values_Add).
  set (signed := encHashOf pKey (method +:+ ":" +:+ Encode (default ∅ values))).
  assert (Hancock1.SignQS now_s method key pKey values = Encode (Add sv "data" signed)) as ->.
  { unfold Hancock1.SignQS. rewrite copy_entries_default. destruct values; reflexivity. }
  rewrite Validate_cases. unfold recomputed. cbn [request URL Method].
  rewrite Query_Encode by (by apply nonempty_values_Add). cbv zeta.
  rewrite decide_False by (destruct Hwin as [->|(_ & _ & _ & ?)]; lia).
  rewrite Get_Add_ne, Hts by done.
  rewrite (decide_False (P := _ ∧ _)).
  - rewrite Get_Add_fresh, Del_Add_fresh by done.
    case_decide; [|reflexivity].
    unfold stripped. by rewrite Del_Add_fresh, Hdel.
  - intros [H1 Hf]. destruct Hwin as [?|(Hs & Hnow & HW & Habs)]; [done|].
    rewrite (isValidTS_fresh now now_s W) in Hf by auto using ParseInt_Sprintd.
    discriminate.
Qed.

Lemma SignQS1_rejected_witness :
  Validate 1700000005 (request "GET" (Hancock1.SignQS 1700000000 "GET" "pub1" "s3cr3t" foo_bar))
    "s3cr3t" 60
  = (None,
     Some {| s := "signature mismatch `uvjXS-oziFmOVAt4cXzshE4wjiLVrRuiHjCZh4y6jpA=` != `55Ez3yhFMT8agy5uwiwbNKk-m7x0z8YjFJoj0pEH22E=`";
             Status := 401 |}).
Proof.
  assert (60 = -1 ∨ (Int64.in_range 1700000000 ∧ Int64.in_range 1700000005 ∧ Int64.in_range 60
                     ∧ Z.abs (1700000005 - 1700000000) <= 60)) as Hwin
    by (right; unfold Int64.in_range, Int64.min, Int64.max; lia).
  pose proof (SignQS1_rejected 1700000000 1700000005 60 "GET" "pub1" "s3cr3t"
                foo_bar foo_bar_no_envelope foo_bar_nonempty Hwin) as H.
  cbv zeta in H. destruct H as [_ H]. rewrite H. vm_compute. reflexivity.
Defined.

(** ** URLs signed by the earlier [Sign] *)

(** Text without the bytes that [QueryUnescape] rewrites and without the
    pair separators. *)
Definition verbatim_byte (c : ascii) : bool :=
  negb (bool_decide (c = "%"%char)) && negb (bool_decide (c = "+"%char))
  && negb (bool_decide (c = "&"%char)) && negb (bool_decide (c = ";"%char)).

Fixpoint verbatim (str : string) : bool :=
  match str with
  | "" => true
  | String c str' => verbatim_byte c && verbatim str'
  end.

Lemma verbatim_spec (str : string) :
  verbatim str = true →
  QueryUnescape str = inl str
  ∧ Strings.Contains str "&" = false ∧ Strings.Contains str ";" = false.
Proof.
  induction str as [|c str IH]; [done|]. cbn [verbatim QueryUnescape Strings.Contains].
  intros [Hc Hs]%andb_prop. destruct (IH Hs) as (-> & -> & ->).
  unfold verbatim_byte in Hc.
  apply andb_prop in Hc as [Hc H4]. apply andb_prop in Hc as [Hc H3].
  apply andb_prop in Hc as [H1 H2].
  apply negb_true_iff, bool_decide_eq_false in H1, H2, H3, H4.
  by rewrite !decide_False by done.
Qed.

(** Every character of the base64url alphabet, and the padding, is kept verbatim. *)
Lemma verbatim_enc (i : Z) : verbatim_byte (Base64.enc i) = true.
Proof.
  unfold Base64.enc. generalize (Z.to_nat i). intros n.
  do 64 (destruct n as [|n]; [vm_compute; reflexivity|]). reflexivity.
Qed.

Lemma verbatim_EncodeToString (src : list Z) : verbatim (Base64.EncodeToString src) = true.
Proof.
  remember (length src) as n eqn:Hn. revert src Hn.
  induction n as [n IH] using lt_wf_ind. intros src ->.
  destruct src as [|b0 [|b1 [|b2 rest]]]; cbn [Base64.EncodeToString verbatim].
  - reflexivity.
  - by rewrite !verbatim_enc.
  - by rewrite !verbatim_enc.
  - rewrite !verbatim_enc. cbn [andb]. apply (IH (length rest)); [cbn; lia|reflexivity].
Qed.

(** One iteration of the loop of [parseQuery] on a final pair written
    as it is, the key without [=]. *)
Lemma parseQuery_verbatim_segment fuel (m : Values) err (k x : string) :
  verbatim k = true → Strings.Contains k "=" = false → k ≠ "" → verbatim x = true →
  parseQuery (S fuel) m err (k +:+ String "=" x) = (Add m k x, err).
Proof.
  intros Hk Heq Hne Hx.
  destruct (verbatim_spec k Hk) as (Hku & Hk1 & Hk2).
  destruct (verbatim_spec x Hx) as (Hxu & Hx1 & Hx2).
  assert (Strings.Contains (k +:+ String "=" x) "&" = false) as Hamp.
  { rewrite Contains_app, Hk1. cbn. by rewrite decide_False. }
  assert (Strings.Contains (k +:+ String "=" x) ";" = false) as Hsemi.
  { rewrite Contains_app, Hk2. cbn. by rewrite decide_False. }
  destruct (k +:+ String "=" x) as [|c q] eqn:Hq.
  { destruct k; discriminate. }
  cbn [parseQuery]. rewrite (Cut_missing _ _ Hamp), Hsemi.
  rewrite decide_False by done. rewrite <-Hq, (Cut_found _ _ _ Heq), Hku, Hxu.
  apply parseQuery_empty.
Qed.

Lemma parseQuery_amp_tail_then (l : list (string * string)) fuel (m : Values) err
    (p : string * string) (k x : string) :
  verbatim k = true → Strings.Contains k "=" = false → k ≠ "" → verbatim x = true →
  (S (length l) < fuel)%nat →
  parseQuery fuel m err ((enc_pair p +:+ amp_tail l) +:+ String "&" (k +:+ String "=" x))
  = (Add (fold_left add_pair (p :: l) m) k x, err).
Proof.
  intros Hk Heq Hne Hx. revert fuel m p. induction l as [|q l IH]; intros fuel m p Hfuel.
  - destruct fuel as [|[|fuel]]; [cbn in Hfuel; lia..|].
    cbn [amp_tail]. rewrite str_app_nil_r.
    rewrite (parseQuery_segment _ _ _ _ (k +:+ String "=" x) true p).
    + by apply parseQuery_verbatim_segment.
    + apply Cut_found, enc_pair_Contains.
  - destruct fuel as [|fuel]; [cbn in Hfuel; lia|].
    change (amp_tail (q :: l)) with (String "&" (enc_pair q +:+ amp_tail l)).
    rewrite str_app_assoc. rewrite str_app_cons.
    rewrite (parseQuery_segment _ _ _ _
               ((enc_pair q +:+ amp_tail l) +:+ String "&" (k +:+ String "=" x)) true p).
    + rewrite IH by (cbn in Hfuel; lia). done.
    + apply Cut_found, enc_pair_Contains.
Qed.

(** The pairs [Encode] writes rebuild the map. *)
Lemma fold_pairs_sorted (v : Values) :
  nonempty_values v → fold_left add_pair (pairs v (sorted_keys v)) ∅ = v.
Proof.
  intros Hv. pose proof (ParseQuery_joined (pairs v (sorted_keys v))) as H.
  rewrite <-Encode_joined in H.
  pose proof (Query_Encode v Hv) as HQ. unfold Query in HQ. cbn [RawQuery] in HQ.
  rewrite H in HQ. exact HQ.
Qed.

(** A query made of an encoded map and one more pair written as it is. *)
Lemma Query_Encode_then (v : Values) (k x : string) :
  nonempty_values v → v ≠ ∅ →
  verbatim k = true → Strings.Contains k "=" = false → k ≠ "" → verbatim x = true →
  Query {| RawQuery := Encode v +:+ String "&" (k +:+ String "=" x) |} = Add v k x.
Proof.
  intros Hv Hne Hk Heq Hk0 Hx. unfold Query, ParseQuery. cbn [RawQuery].
  rewrite Encode_joined.
  destruct (pairs v (sorted_keys v)) as [|p l] eqn:Hl.
  { exfalso. apply Hne. rewrite <-(fold_pairs_sorted v Hv), Hl. reflexivity. }
  cbn [joined]. rewrite parseQuery_amp_tail_then; try assumption.
  - cbn [fst]. by rewrite <-Hl, fold_pairs_sorted.
  - rewrite !str_length_app. pose proof (length_amp_tail l).
    pose proof (enc_pair_nonempty p) as Hp. destruct (enc_pair p); [done|]. cbn. lia.
Qed.

(** X12: the URL the [Sign] of src/hancock.go returns, for a base URL
    without a question mark and a parameter set without the reserved keys
    and without empty value lists, is the base URL, a question mark and a
    query that both revisions of [Validate] accept with the same secret
    key (window [-1], or one that holds the signing time), returning the
    parameters the caller passed. *)
Theorem Sign0_round_trip (now_s now W : Z) (method key pKey urlStr : string)
    (values : option Values) :
  Strings.Contains urlStr "?" = false →
  no_envelope (default ∅ values) → nonempty_values (default ∅ values) →
  W = -1 ∨ (Int64.in_range now_s ∧ Int64.in_range now ∧ Int64.in_range W
            ∧ Z.abs (now - now_s) <= W) →
  let '(base, query, found) :=
    Strings.Cut (Hancock0.Sign now_s method key pKey urlStr values).1 "?" in
  base = urlStr ∧ found = true
  ∧ Hancock0.Validate now (request method query) pKey W = (Some (default ∅ values), None)
  ∧ Validate now (request method query) pKey W = (Some (default ∅ values), None).
Proof.
  intros Hurl Henv Hne Hwin. unfold Hancock0.Sign. cbn [fst].
  destruct (to_sign_lookup now_s key values Henv) as (Hdata & Hts & Hdel).
  unfold to_sign in *. rewrite copy_entries_default in *.
  assert ((match values with Some qs => qs | None => ∅ end) = default ∅ values) as ->
    by (by destruct values).
  set (sv := Add (Add (default ∅ values) "apikey" key) "ts" (Fmt.Sprintd now_s)) in *.
  set (mac := encHashOf pKey (method +:+ ":" +:+ Encode sv)).
  change (urlStr +:+ "?" +:+ Encode sv +:+ "&data=" +:+ mac)
    with (urlStr +:+ String "?" (Encode sv +:+ String "&" ("data" +:+ String "=" mac))).
  rewrite (Cut_found _ _ _ Hurl).
  split; [reflexivity|]. split; [reflexivity|].
  assert (Query {| RawQuery := Encode sv +:+ String "&" ("data" +:+ String "=" mac) |}
          = Add sv "data" mac) as HQ.
  { apply Query_Encode_then; try reflexivity.
    - by repeat apply nonempty_values_Add.
    - intros Hempty. assert (sv !! "ts" = None) as Habs by (by rewrite Hempty).
      unfold sv, Add in Habs. by rewrite lookup_insert_eq in Habs.
    - discriminate.
    - apply verbatim_EncodeToString. }
  assert (W ≠ -2 ∧ (W = -1 ∨ (-1 < W ∧ Int64.in_range W
                              ∧ (isValidTS now (Fmt.Sprintd now_s) W).2 = true)))
    as [H2 Hfresh].
  { destruct Hwin as [->|(Hs & Hnow & HW & Habs)]; [split; [lia|by left]|].
    split; [lia|right]. split; [lia|]. split; [done|].
    by rewrite (isValidTS_fresh now now_s W) by auto using ParseInt_Sprintd. }
  split.
  - rewrite Validate0_cases. unfold recomputed. cbn [request URL Method]. rewrite HQ.
    cbv zeta. rewrite Get_Add_ne, Hts by done.
    rewrite (decide_False (P := _ ∧ _)).
    + rewrite Get_Add_fresh, Del_Add_fresh by done. rewrite decide_True by reflexivity.
      unfold stripped. by rewrite Del_Add_fresh, Hdel.
    + intros [H1 Hf]. destruct Hfresh as [->|(_ & _ & Hok)].
      * by vm_compute in H1.
      * rewrite Hok in Hf. discriminate.
  - rewrite Validate_cases. unfold recomputed. cbn [request URL Method]. rewrite HQ.
    cbv zeta. rewrite decide_False by exact H2. rewrite Get_Add_ne, Hts by done.
    rewrite (decide_False (P := _ ∧ _)).
    + rewrite Get_Add_fresh, Del_Add_fresh by done. rewrite decide_True by reflexivity.
      unfold stripped. by rewrite Del_Add_fresh, Hdel.
    + intros [H1 Hf]. destruct Hfresh as [->|(_ & _ & Hok)]; [done|].
      rewrite Hok in Hf. discriminate.
Qed.

Lemma Sign0_round_trip_witness :
  let '(base, query, found) :=
    Strings.Cut (Hancock0.Sign 1700000000 "GET" "pub1" "s3cr3t" "https://h/p" foo_bar).1 "?" in
  base = "https://h/p" ∧ found = true
  ∧ Hancock0.Validate 1700000005 (request "GET" query) "s3cr3t" 60
    = (Some {["foo" := ["bar"]]}, None)
  ∧ Validate 1700000005 (request "GET" query) "s3cr3t" 60 = (Some {["foo" := ["bar"]]}, None).
Proof.
  refine (Sign0_round_trip 1700000000 1700000005 60 "GET" "pub1" "s3cr3t" "https://h/p" foo_bar
            _ foo_bar_no_envelope foo_bar_nonempty _).
  - vm_compute. reflexivity.
  - right. unfold Int64.in_range, Int64.min, Int64.max. lia.
Defined.

(** ** The map given to the earlier [Sign] *)

(** X13: the [Sign] of src/hancock.go, run on a reference to a caller's
    map that has neither [apikey] nor [ts], returns the URL computed from
    what the map showed and leaves the two keys in the caller's map; every
    other key shows what it showed, and the map object keeps its place. *)
Theorem Sign0_st_writes_input (growslice : nat → nat) (now : Z)
    (method key pKey urlStr : string) (mc : nat) (mm : gmap string slice) (st : store) :
  maps st !! mc = Some mm → valid st mm →
  view st mc !! "apikey" = None → view st mc !! "ts" = None →
  let '(u, st') := Sign0_st growslice now method key pKey urlStr (Some mc) st in
  (u, Some (view st' mc)) = Hancock0.Sign now method key pKey urlStr (Some (view st mc))
  ∧ view st' mc = <["ts" := [Fmt.Sprintd now]]> (<["apikey" := [key]]> (view st mc))
  ∧ view st' mc ≠ view st mc
  ∧ reqs st' = reqs st.
Proof.
  intros Hmc Hvalid Hk Ht.
  assert (Add (Add (view st mc) "apikey" key) "ts" (Fmt.Sprintd now)
          = <["ts" := [Fmt.Sprintd now]]> (<["apikey" := [key]]> (view st mc))) as Hadd.
  { unfold Add, index. by rewrite lookup_insert_ne, Ht, Hk by done. }
  apply (view_lookup_None st mc mm) in Hk as Hk', Ht as Ht'; [|done..].
  unfold Sign0_st. unfold mbind at 1, M_bind at 1, mret at 1, M_ret at 1.
  destruct (Add_st_absent growslice st mc mm "apikey" key) as (sl3 & a3 & xs3 & E3 & F3 & V3 & W3);
    [done..|].
  unfold mbind at 1, M_bind at 1. rewrite E3.
  set (st3 := Store (<[a3 := xs3]> _) _ _) in *.
  destruct (Add_st_absent growslice st3 mc (<["apikey" := sl3]> mm) "ts" (Fmt.Sprintd now))
    as (sl4 & a4 & xs4 & E4 & F4 & V4 & W4);
    [apply lookup_insert_eq|done|by rewrite lookup_insert_ne|].
  unfold mbind at 1, M_bind at 1. rewrite E4.
  set (st4 := Store (<[a4 := xs4]> _) _ _) in *.
  unfold mbind at 1, M_bind at 1, Encode_st at 1, gets at 1, mret, M_ret.
  rewrite W4, W3. split; [reflexivity|]. split; [exact Hadd|]. split; [|reflexivity].
  rewrite Hadd. intros Heq.
  assert (view st mc !! "ts" = Some [Fmt.Sprintd now]) as Habs
    by (rewrite <-Heq; apply lookup_insert_eq).
  rewrite Ht in Habs. discriminate.
Qed.

Lemma Sign0_st_writes_input_witness :
  let '(u, st') := Sign0_st double 1700000000 "GET" "pub1" "s3cr3t" "http://h/p" (Some 0%nat)
                     store_foo_bar in
  (u, Some (view st' 0))
  = Hancock0.Sign 1700000000 "GET" "pub1" "s3cr3t" "http://h/p" (Some (view store_foo_bar 0))
  ∧ view st' 0 = <["ts" := [Fmt.Sprintd 1700000000]]> (<["apikey" := ["pub1"]]> (view store_foo_bar 0))
  ∧ view st' 0 ≠ view store_foo_bar 0
  ∧ reqs st' = reqs store_foo_bar.
Proof.
  refine (Sign0_st_writes_input double 1700000000 "GET" "pub1" "s3cr3t" "http://h/p" 0
            {[ "foo" := Slice 0 0 1 1 ]} store_foo_bar _ _ _ _).
  - reflexivity.
  - intros k sl [<- <-]%lookup_singleton_Some. exists ["bar"].
    split; [reflexivity|]. cbn. lia.
  - vm_compute. reflexivity.
  - vm_compute. reflexivity.
Defined.

Lemma Del_Add_same (v : Values) (k x : string) : Del (Add v k x) k = Del v k.
Proof. unfold Del, Add. apply delete_insert_eq. Qed.

Lemma index_Add_same (v : Values) (k x : string) : index (Add v k x) k = index v k ++ [x].
Proof. unfold index at 1, Add. by rewrite lookup_insert_eq. Qed.

Lemma index_Add_ne (v : Values) (k j x : string) : k ≠ j → index (Add v k x) j = index v j.
Proof. intros. unfold index, Add. by rewrite lookup_insert_ne. Qed.

(** X14: a map signed twice by the [Sign] of src/hancock.go carries both
    public keys and both timestamps into the second URL; the query of that
    URL parses to the two-valued map, its MAC verifies, and the [Validate]
    of the same revision judges its age by the first signing time, so that
    it refuses the URL as expired once the first timestamp is out of the
    window, whenever the second call was made. *)
Theorem Sign0_twice (t1 t2 now W : Z) (method key pKey urlStr : string) (values : Values) :
  Strings.Contains urlStr "?" = false →
  no_envelope values → nonempty_values values →
  Int64.in_range t1 → 0 <= W → Int64.in_range W → Z.abs (now - t1) < 2 ^ 63 →
  let '(u1, after1) := Hancock0.Sign t1 method key pKey urlStr (Some values) in
  let '(u2, after2) := Hancock0.Sign t2 method key pKey urlStr after1 in
  let '(_, query, _) := Strings.Cut u2 "?" in
  index (Query {| RawQuery := query |}) "apikey" = [key; key]
  ∧ index (Query {| RawQuery := query |}) "ts" = [Fmt.Sprintd t1; Fmt.Sprintd t2]
  ∧ Hancock0.Validate now (request method query) pKey W
    = if bool_decide (Z.abs (now - t1) <= W) then (Some values, None)
      else (None, Some {| s := "expired timestamp " +:+ Fmt.Sprintd t1; Status := 406 |}).
Proof.
  intros Hurl (Hk & Ht & Hd) Hne Ht1 HW0 HW Habs. unfold Hancock0.Sign.
  set (v1 := Add (Add values "apikey" key) "ts" (Fmt.Sprintd t1)).
  set (sv := Add (Add v1 "apikey" key) "ts" (Fmt.Sprintd t2)).
  set (mac := encHashOf pKey (method +:+ ":" +:+ Encode sv)).
  change (urlStr +:+ "?" +:+ Encode sv +:+ "&data=" +:+ mac)
    with (urlStr +:+ String "?" (Encode sv +:+ String "&" ("data" +:+ String "=" mac))).
  rewrite (Cut_found _ _ _ Hurl).
  assert (sv !! "data" = None) as Hsd.
  { unfold sv, v1. rewrite !lookup_Add_ne by done. exact Hd. }
  assert (index sv "apikey" = [key; key]) as Hia.
  { unfold sv, v1. rewrite index_Add_ne, index_Add_same, index_Add_ne, index_Add_same by done.
    unfold index. by rewrite Hk. }
  assert (index sv "ts" = [Fmt.Sprintd t1; Fmt.Sprintd t2]) as Hit.
  { unfold sv, v1. rewrite index_Add_same, index_Add_ne, index_Add_same by done.
    rewrite index_Add_ne by done. unfold index. by rewrite Ht. }
  assert (Del (Del sv "apikey") "ts" = values) as Hdel.
  { unfold sv, v1. repeat (rewrite Del_Add_same || rewrite Del_Add_ne by done).
    unfold Del. by rewrite (delete_id _ "apikey"), delete_id. }
  assert (Query {| RawQuery := Encode sv +:+ String "&" ("data" +:+ String "=" mac) |}
          = Add sv "data" mac) as HQ.
  { apply Query_Encode_then; try reflexivity.
    - by repeat apply nonempty_values_Add.
    - intros Hempty. rewrite Hempty in Hit. discriminate.
    - discriminate.
    - apply verbatim_EncodeToString. }
  rewrite HQ. rewrite !index_Add_ne by done. split; [exact Hia|]. split; [exact Hit|].
  rewrite Validate0_cases. unfold recomputed. cbn [request URL Method]. rewrite HQ. cbv zeta.
  assert (Get (Add sv "data" mac) "ts" = Fmt.Sprintd t1) as ->.
  { rewrite Get_Add_ne by done. unfold Get. by rewrite Hit. }
  rewrite (isValidTS_exact now t1 W) by auto using ParseInt_Sprintd.
  cbn [fst snd].
  assert (Int64.wrap W = W) as -> by (by apply wrap_in_range).
  rewrite Get_Add_fresh, Del_Add_fresh by done.
  unfold stripped. rewrite Del_Add_fresh, Hdel by done.
  destruct (bool_decide_reflect (Z.abs (now - t1) <= W)) as [Hin|Hout].
  - rewrite (decide_False (P := _ ∧ _)) by (intros [_ ?]; discriminate).
    by rewrite decide_True by reflexivity.
  - rewrite (decide_True (P := _ ∧ _)) by (split; [lia|reflexivity]). reflexivity.
Qed.

Lemma Sign0_twice_witness :
  let '(u1, after1) :=
    Hancock0.Sign 1700000000 "GET" "pub1" "s3cr3t" "https://h/p" (Some {["foo" := ["bar"]]}) in
  let '(u2, after2) := Hancock0.Sign 1700000500 "GET" "pub1" "s3cr3t" "https://h/p" after1 in
  let '(_, query, _) := Strings.Cut u2 "?" in
  index (Query {| RawQuery := query |}) "apikey" = ["pub1"; "pub1"]
  ∧ index (Query {| RawQuery := query |}) "ts" = ["1700000000"; "1700000500"]
  ∧ Hancock0.Validate 1700000501 (request "GET" query) "s3cr3t" 60
    = (None, Some {| s := "expired timestamp 1700000000"; Status := 406 |}).
Proof.
  refine (Sign0_twice 1700000000 1700000500 1700000501 60 "GET" "pub1" "s3cr3t" "https://h/p"
            {["foo" := ["bar"]]} _ foo_bar_no_envelope foo_bar_nonempty _ _ _ _).
  - vm_compute. reflexivity.
  - unfold Int64.in_range, Int64.min, Int64.max. lia.
  - lia.
  - unfold Int64.in_range, Int64.min, Int64.max. lia.
  - lia.
Defined.

(** * The handler of the last revision *)

(** The parts of [http.Request] that src/unnamed/part_002 reads. *)
Module Http.

Record Request := {
  Method : string;
  URL : URL.URL;
  Host : string;
  Proto : string;
  RemoteAddr : string;
  RequestURI : string;
  Header : gmap string (list string)
}.

End Http.

Module Hancock2.
Import Bytes URL.
Export Hancock (isValidTS, encHashOf, timestamp_msg, mismatch_msg,
                StatusUnauthorized, StatusNotAcceptable).

Record RequestInfo := {
  APIKey : string;
  Host : string;
  Proto : string;
  RemoteAddr : string;
  RequestURI : string;
  Header : string
}.

(** [type Error struct { Status int; Message string; Request RequestInfo }] *)
Record Error := { Status : Z; Message : string; Request : RequestInfo }.

(** [type KeyFunc func(key string) (pKey string, expires int)] *)
Definition KeyFunc : Type := string → string * Z.

(** What [ServeHTTP] does to its surroundings, in order: a status written
    to the response, an error handed to [h.Log], the request handed to
    the wrapped handler. *)
Inductive effect :=
| WriteHeader (status : Z)
| Log (err : Error)
| handler_ServeHTTP (r : Http.Request).

Section marshal.

(** [json.Marshal] on a header map, read as text. *)
Variable Marshal : gmap string (list string) → string.

(** [newError(status, r, fmtStr, params...)] with the format already applied. *)
Definition newError (status : Z) (r : Http.Request) (msg : string) : Error :=
  let header := Marshal (Http.Header r) in
  {| Status := status;
     Message := msg;
     Request := {| APIKey := Get (Query (Http.URL r)) "apikey";
                   Host := Http.Host r;
                   Proto := Http.Proto r;
                   RemoteAddr := Http.RemoteAddr r;
                   RequestURI := Http.RequestURI r;
                   Header := header |} |}.

Definition Validate (now : Z) (r : Http.Request) (pKey : string) (expireSeconds : Z)
  : option Values * option Error :=
  let v := Query (Http.URL r) in
  let verify (_ : unit) :=
    let data := Get v "data" in
    let v := Del v "data" in
    let sig := Http.Method r +:+ ":" +:+ Encode v in
    let encHash := encHashOf pKey sig in
    if decide (encHash <> data) then
      (None, Some (newError StatusUnauthorized r (mismatch_msg encHash data)))
    else
      let v := Del v "apikey" in
      let v := Del v "ts" in
      (Some v, None) in
  if decide (expireSeconds = -1) then
    verify ()
  else if decide (expireSeconds = -2) then
    let v := Del v "data" in
    let v := Del v "apikey" in
    let v := Del v "ts" in
    (Some v, None)
  else
    let ts := Get v "ts" in
    let '(s, ok) := isValidTS now ts expireSeconds in
    if negb ok then (None, Some (newError StatusNotAcceptable r (timestamp_msg s ts)))
    else verify ().

(** [(h *signedHandler) ServeHTTP(w, r)], [key] being [h.key]. *)
Definition ServeHTTP (key : KeyFunc) (now : Z) (r : Http.Request) : list effect :=
  let k := Get (Query (Http.URL r)) "apikey" in
  let '(pKey, expires) := key k in
  if decide (pKey = "") then [WriteHeader StatusUnauthorized]
  else
    match Validate now r pKey expires with
    | (_, Some err) => [WriteHeader (Status err); Log err]
    | (_, None) => [handler_ServeHTTP r]
    end.

End marshal.

End Hancock2.

(** The request as the revisions before the last read it. *)
Definition plain_request (r : Http.Request) : Request :=
  {| Method := Http.Method r; URL := Http.URL r |}.

(** The [Validate] of the last revision decides as the one before it;
    only the error carries more. *)
Lemma Validate2_eq (Marshal : gmap string (list string) → string) (now : Z)
    (r : Http.Request) (pKey : string) (W : Z) :
  Hancock2.Validate Marshal now r pKey W
  = ((Validate now (plain_request r) pKey W).1,
     (fun e => Hancock2.newError Marshal (Status e) r (s e))
       <$> (Validate now (plain_request r) pKey W).2).
Proof.
  unfold Hancock2.Validate, Validate, plain_request. cbn [URL Method].
  generalize (encHashOf pKey
                (Http.Method r +:+ ":" +:+ Encode (Del (Query (Http.URL r)) "data"))).
  intros h.
  destruct (decide (W = -1)); [by destruct (decide (h ≠ _))|].
  destruct (decide (W = -2)); [reflexivity|].
  destruct (isValidTS now (Get (Query (Http.URL r)) "ts") W) as [reason [|]]; cbn [negb].
  - by destruct (decide (h ≠ _)).
  - reflexivity.
Qed.

Lemma Get_Query_SignQS_apikey (now : Z) (method key pKey : string) (values : option Values) :
  no_envelope (default ∅ values) → nonempty_values (default ∅ values) →
  Get (Query {| RawQuery := SignQS now method key pKey values |}) "apikey" = key.
Proof.
  intros (Hk & _ & _) Hne. rewrite Query_SignQS by done. unfold to_sign.
  rewrite copy_entries_default, !Get_Add_ne by done. by apply Get_Add_fresh.
Qed.

(** X15: a request whose query is what [SignQS] returned for its method,
    for parameters without the reserved keys and without empty value
    lists, under the secret key and window that [h.key] gives for the
    public key, the secret key not empty and the window [-1] or one that
    holds the signing time, is handed to the wrapped handler as it came;
    [ServeHTTP] writes no status and logs nothing. *)
Theorem ServeHTTP_signed (Marshal : gmap string (list string) → string)
    (keyFn : Hancock2.KeyFunc) (now_s now W : Z) (key pKey : string)
    (values : option Values) (r : Http.Request) :
  RawQuery (Http.URL r) = SignQS now_s (Http.Method r) key pKey values →
  keyFn key = (pKey, W) → pKey ≠ "" →
  no_envelope (default ∅ values) → nonempty_values (default ∅ values) →
  W = -1 ∨ (Int64.in_range now_s ∧ Int64.in_range now ∧ Int64.in_range W
            ∧ Z.abs (now - now_s) <= W) →
  Hancock2.ServeHTTP Marshal keyFn now r = [Hancock2.handler_ServeHTTP r].
Proof.
  intros Hq Hkey Hp Henv Hne Hwin. unfold Hancock2.ServeHTTP.
  assert (Http.URL r = {| RawQuery := SignQS now_s (Http.Method r) key pKey values |}) as Hu.
  { destruct (Http.URL r) as [q]. cbn [RawQuery] in Hq. by rewrite Hq. }
  rewrite Hu, Get_Query_SignQS_apikey, Hkey by done.
  rewrite decide_False by done. rewrite Validate2_eq.
  assert (plain_request r = request (Http.Method r) (SignQS now_s (Http.Method r) key pKey values))
    as -> by (unfold plain_request, request; by rewrite Hu).
  rewrite signed_query_accepted by done. reflexivity.
Qed.

Lemma ServeHTTP_signed_witness :
  let r := {| Http.Method := "GET";
              Http.URL := {| RawQuery := SignQS 1700000000 "GET" "pub1" "s3cr3t" foo_bar |};
              Http.Host := "h"; Http.Proto := "HTTP/1.1"; Http.RemoteAddr := "10.0.0.1:4000";
              Http.RequestURI := "/p"; Http.Header := ∅ |} in
  Hancock2.ServeHTTP (fun _ => "{}") (fun _ => ("s3cr3t", 60)) 1700000005 r
  = [Hancock2.handler_ServeHTTP r].
Proof.
  intros r.
  refine (ServeHTTP_signed (fun _ => "{}") (fun _ => ("s3cr3t", 60)) 1700000000 1700000005 60
            "pub1" "s3cr3t" foo_bar r eq_refl eq_refl _ foo_bar_no_envelope foo_bar_nonempty _).
  - discriminate.
  - right. unfold Int64.in_range, Int64.min, Int64.max. lia.
Defined.

(** X16: whatever the request and whatever [h.key] answers, [ServeHTTP]
    does one of three things. It hands the request, unchanged, to the
    wrapped handler, and then the secret key is not empty and either the
    window is [-2] or the [data] value is the MAC of the method and the
    encoded rest of the query and the timestamp passed (or the window is
    [-1]). Or the secret key is empty and it writes 401 and nothing else.
    Or it writes the status of the error of [Validate], 406 for the
    timestamp and 401 for the MAC, and logs that error, which names the
    public key of the request. The handler never runs in the last two. *)
Theorem ServeHTTP_outcomes (Marshal : gmap string (list string) → string)
    (keyFn : Hancock2.KeyFunc) (now : Z) (r : Http.Request) :
  let v := Query (Http.URL r) in
  let pKey := (keyFn (Get v "apikey")).1 in
  let W := (keyFn (Get v "apikey")).2 in
  let mac := encHashOf pKey (Http.Method r +:+ ":" +:+ Encode (Del v "data")) in
  let fresh := W = -1 ∨ (isValidTS now (Get v "ts") W).2 = true in
  (Hancock2.ServeHTTP Marshal keyFn now r = [Hancock2.handler_ServeHTTP r]
   ∧ pKey ≠ "" ∧ (W = -2 ∨ (fresh ∧ Get v "data" = mac)))
  ∨ (Hancock2.ServeHTTP Marshal keyFn now r = [Hancock2.WriteHeader 401] ∧ pKey = "")
  ∨ (∃ e, Hancock2.ServeHTTP Marshal keyFn now r
          = [Hancock2.WriteHeader (Hancock2.Status e); Hancock2.Log e]
          ∧ pKey ≠ "" ∧ W ≠ -2
          ∧ ((Hancock2.Status e = 406 ∧ ¬ fresh) ∨ (Hancock2.Status e = 401 ∧ fresh ∧ Get v "data" ≠ mac))
          ∧ Hancock2.APIKey (Hancock2.Request e) = Get v "apikey"
          ∧ Hancock2.Header (Hancock2.Request e) = Marshal (Http.Header r)).
Proof.
  intros v pKey W mac fresh. subst fresh mac W pKey. unfold Hancock2.ServeHTTP. fold v.
  destruct (keyFn (Get v "apikey")) as [p w] eqn:Hkey. cbn [fst snd].
  destruct (decide (p = "")) as [->|Hp]; [right; left; done|].
  rewrite Validate2_eq, Validate_cases. unfold recomputed, plain_request. cbn [URL Method].
  fold v. cbv zeta.
  set (mac := encHashOf p (Http.Method r +:+ ":" +:+ Encode (Del v "data"))).
  destruct (decide (w = -2)) as [->|H2]; [left; split; [reflexivity|split; [done|by left]]|].
  destruct (decide (w ≠ -1 ∧ (isValidTS now (Get v "ts") w).2 = false)) as [[H1 Hts]|Hok].
  { right; right. eexists. split; [reflexivity|]. split; [done|]. split; [done|].
    split; [|split; reflexivity]. left. split; [reflexivity|].
    intros [?|Hf]; [done|]. rewrite Hf in Hts. discriminate. }
  assert (w = -1 ∨ (isValidTS now (Get v "ts") w).2 = true) as Hfresh.
  { destruct (decide (w = -1)) as [|H1]; [by left|right].
    destruct ((isValidTS now (Get v "ts") w).2) eqn:E; [reflexivity|].
    exfalso. apply Hok. by split. }
  destruct (decide (mac = Get v "data")) as [Heq|Hne].
  - left. split; [reflexivity|]. split; [done|]. right. by split.
  - right; right. eexists. split; [reflexivity|]. split; [done|]. split; [done|].
    split; [|split; reflexivity]. right. split; [reflexivity|]. split; [exact Hfresh|].
    intros E. apply Hne. by rewrite E.
Qed.

(** * The wrapper of src/wrappers/wrappers.go *)

Module Wrappers.
Import Bytes URL Hancock.

(** The parts of [dingo.Context] the wrapper uses: the request, which
    [ctx.Request] and [ctx.URL] both reach, and the route data. *)
Record Context := { Request : Hancock.Request; RouteData : gmap string string }.

(** [type KeyFunc func(key string) (string, error)]: the secret key, or
    the text of the error. *)
Definition KeyFunc : Type := string → string + string.

Section handler.

(** The [interface{}] a [rest.Handler] returns beside the status. *)
Context {Body : Type}.

(** [WrapSigned(keyFunc, expireSeconds, handlerFunc)] applied to [ctx]:
    the status and body returned, and the lines given to [log.Printf]. *)
Definition WrapSigned (keyFunc : KeyFunc) (expireSeconds : Z)
    (handlerFunc : Context → Z * option Body) (now : Z) (ctx : Context)
  : (Z * option Body) * list string :=
  let key := Get (Query (URL (Request ctx))) "apikey" in
  match keyFunc key with
  | inr err =>
      ((StatusUnauthorized, None),
       ["API key retrieval failed: `" +:+ key +:+ "`; " +:+ err])
  | inl pKey =>
      match Validate now (Request ctx) pKey expireSeconds with
      | (_, Some hErr) =>
          ((Status hErr, None),
           ["URL validation failed for query-string: `" +:+ RawQuery (URL (Request ctx))
              +:+ "`; " +:+ s hErr])
      | (qs, None) =>
          let ctx :=
            {| Request := {| Method := Method (Request ctx);
                             URL := {| RawQuery := Encode (default ∅ qs) |} |};
               RouteData := <["apikey" := key]> (RouteData ctx) |} in
          (handlerFunc ctx, [])
      end
  end.

End handler.

End Wrappers.

(** X17: a context whose query is what [SignQS] returned for its method,
    for parameters without the reserved keys and without empty value
    lists, under the secret key that [keyFunc] gives for the public key,
    the window [-1] or one that holds the signing time, reaches the
    wrapped handler with the signature removed: the query of the request
    is the encoding of the caller's parameters and parses back to them,
    the route data have the public key under [apikey], and what the
    wrapper returns is what the handler returns, with nothing logged. *)
Theorem WrapSigned_signed {Body : Type} (keyFunc : Wrappers.KeyFunc)
    (handlerFunc : Wrappers.Context → Z * option Body)
    (now_s now W : Z) (key pKey : string) (values : option Values) (ctx : Wrappers.Context) :
  RawQuery (URL (Wrappers.Request ctx))
  = SignQS now_s (Method (Wrappers.Request ctx)) key pKey values →
  keyFunc key = inl pKey →
  no_envelope (default ∅ values) → nonempty_values (default ∅ values) →
  W = -1 ∨ (Int64.in_range now_s ∧ Int64.in_range now ∧ Int64.in_range W
            ∧ Z.abs (now - now_s) <= W) →
  let ctx' :=
    {| Wrappers.Request := request (Method (Wrappers.Request ctx)) (Encode (default ∅ values));
       Wrappers.RouteData := <["apikey" := key]> (Wrappers.RouteData ctx) |} in
  Wrappers.WrapSigned keyFunc W handlerFunc now ctx = (handlerFunc ctx', [])
  ∧ Query (URL (Wrappers.Request ctx')) = default ∅ values.
Proof.
  intros Hq Hkey Henv Hne Hwin ctx'. unfold Wrappers.WrapSigned.
  assert (Wrappers.Request ctx
          = request (Method (Wrappers.Request ctx))
                    (SignQS now_s (Method (Wrappers.Request ctx)) key pKey values)) as Hr.
  { destruct (Wrappers.Request ctx) as [m [q]]. cbn [URL RawQuery Method] in *.
    unfold request. by rewrite Hq. }
  rewrite Hr. cbn [request URL Method].
  rewrite Get_Query_SignQS_apikey, Hkey by done.
  change {| Method := Method (Wrappers.Request ctx);
            URL := {| RawQuery := SignQS now_s (Method (Wrappers.Request ctx)) key pKey values |} |}
    with (request (Method (Wrappers.Request ctx))
                  (SignQS now_s (Method (Wrappers.Request ctx)) key pKey values)).
  rewrite signed_query_accepted by done.
  split; [reflexivity|]. by apply Query_Encode.
Qed.

Lemma WrapSigned_signed_witness :
  let ctx := {| Wrappers.Request :=
                  request "GET" (SignQS 1700000000 "GET" "pub1" "s3cr3t" foo_bar);
                Wrappers.RouteData := ∅ |} in
  let ctx' := {| Wrappers.Request := request "GET" (Encode (default ∅ foo_bar));
                 Wrappers.RouteData := <["apikey" := "pub1"]> ∅ |} in
  Wrappers.WrapSigned (fun _ => inl "s3cr3t") 60
    (fun c => (200, Some (RawQuery (URL (Wrappers.Request c))))) 1700000005 ctx
  = ((200, Some (RawQuery (URL (Wrappers.Request ctx')))), [])
  ∧ Query (URL (Wrappers.Request ctx')) = default ∅ foo_bar.
Proof.
  intros ctx.
  refine (WrapSigned_signed (fun _ => inl "s3cr3t")
            (fun c => (200, Some (RawQuery (URL (Wrappers.Request c)))))
            1700000000 1700000005 60 "pub1" "s3cr3t" foo_bar ctx eq_refl eq_refl
            foo_bar_no_envelope foo_bar_nonempty _).
  right. unfold Int64.in_range, Int64.min, Int64.max. lia.
Defined.

(** X18: whatever the context and whatever [keyFunc] answers, the wrapper
    either returns 401 or 406 with no body and one logged line, the
    handler unused, or returns what the handler returns on a context with
    the method of the request, a query that parses to the parameters of
    the request without [apikey], [ts] and [data], and the public key of
    the request under [apikey] in the route data, with nothing logged; in
    that case [keyFunc] gave a secret key, and the window is [-2] or
    [data] was the MAC under that key. *)
Theorem WrapSigned_outcomes {Body : Type} (keyFunc : Wrappers.KeyFunc) (W : Z)
    (handlerFunc : Wrappers.Context → Z * option Body) (now : Z) (ctx : Wrappers.Context) :
  let r := Wrappers.Request ctx in
  let v := Query (URL r) in
  (∃ status line,
     Wrappers.WrapSigned keyFunc W handlerFunc now ctx = ((status, None), [line])
     ∧ (status = 401 ∨ status = 406)
     ∧ (W = -2 → ∃ err, keyFunc (Get v "apikey") = inr err))
  ∨ (∃ pKey ctx',
       Wrappers.WrapSigned keyFunc W handlerFunc now ctx = (handlerFunc ctx', [])
       ∧ keyFunc (Get v "apikey") = inl pKey
       ∧ Method (Wrappers.Request ctx') = Method r
       ∧ Query (URL (Wrappers.Request ctx'))
         = filter (fun kv => kv.1 ∉ ["apikey"; "ts"; "data"]) v
       ∧ Wrappers.RouteData ctx' = <["apikey" := Get v "apikey"]> (Wrappers.RouteData ctx)
       ∧ (W = -2
          ∨ Get v "data" = encHashOf pKey (Method r +:+ ":" +:+ Encode (Del v "data")))).
Proof.
  intros r v. unfold Wrappers.WrapSigned. fold r. fold v.
  destruct (keyFunc (Get v "apikey")) as [pKey|err] eqn:Hkey.
  2:{ left. do 2 eexists. split; [reflexivity|]. split; [by left|]. intros _. by eexists. }
  rewrite Validate_cases. unfold recomputed. fold v. cbv zeta.
  set (mac := encHashOf pKey (Method r +:+ ":" +:+ Encode (Del v "data"))).
  assert (Query {| RawQuery := Encode (stripped v) |}
          = filter (fun kv => kv.1 ∉ ["apikey"; "ts"; "data"]) v) as Hstrip.
  { rewrite Query_Encode; [apply stripped_filter|].
    unfold stripped. repeat apply nonempty_values_Del. apply Query_nonempty. }
  destruct (decide (W = -2)) as [->|H2].
  { right. do 2 eexists. split; [reflexivity|]. split; [reflexivity|]. split; [reflexivity|].
    split; [exact Hstrip|]. split; [reflexivity|]. by left. }
  destruct (decide (W ≠ -1 ∧ (isValidTS now (Get v "ts") W).2 = false)) as [_|_].
  { left. do 2 eexists. split; [reflexivity|]. split; [by right|]. done. }
  destruct (decide (mac = Get v "data")) as [Heq|Hne].
  - right. do 2 eexists. split; [reflexivity|]. split; [reflexivity|]. split; [reflexivity|].
    split; [exact Hstrip|]. split; [reflexivity|]. by right.
  - left. do 2 eexists. split; [reflexivity|]. split; [by left|]. done.
Qed.

(** * The shape of the MAC *)

Lemma length_be_bytes (n : nat) (x : Z) : length (SHA256.be_bytes n x) = n.
Proof. induction n as [|n IH]; [reflexivity|]. cbn [SHA256.be_bytes length]. by rewrite IH. Qed.

Lemma length_block (h bs : list Z) : length h = 8%nat → length (SHA256.block h bs) = 8%nat.
Proof.
  intros Hh. unfold SHA256.block. rewrite length_zip_with, Hh.
  unfold SHA256.list_of_regs. reflexivity.
Qed.

Lemma length_blocks (n : nat) (h bs : list Z) :
  length h = 8%nat → length (SHA256.blocks n h bs) = 8%nat.
Proof.
  revert h bs. induction n as [|n IH]; intros h bs Hh; [exact Hh|].
  cbn [SHA256.blocks]. by apply IH, length_block.
Qed.

Lemma length_Sum256 (msg : list Z) : length (SHA256.Sum256 msg) = 32%nat.
Proof.
  unfold SHA256.Sum256.
  rewrite (flat_map_constant_length (c := 4)) by (intros; apply length_be_bytes).
  rewrite length_blocks; reflexivity.
Qed.

Lemma length_EncodeToString (src : list Z) :
  String.length (Base64.EncodeToString src) = (4 * ((length src + 2) / 3))%nat.
Proof.
  remember (length src) as n eqn:Hn. revert src Hn.
  induction n as [n IH] using lt_wf_ind. intros src ->.
  destruct src as [|b0 [|b1 [|b2 rest]]]; [reflexivity..|].
  cbn [Base64.EncodeToString String.length length].
  rewrite (IH (length rest)) by (cbn; lia || reflexivity).
  replace (S (S (S (length rest))) + 2)%nat with (length rest + 2 + 1 * 3)%nat by lia.
  rewrite Nat.div_add by lia. lia.
Qed.

(** X19: the MAC that [SignQS] writes and [Validate] recomputes is, for
    every secret key and every text, 44 characters long and has none of
    the bytes [%], [+], [&] and [;], so that it is written into a query
    and read back as it is. *)
Theorem encHashOf_shape (pKey sig : string) :
  String.length (encHashOf pKey sig) = 44%nat
  ∧ verbatim (encHashOf pKey sig) = true
  ∧ QueryUnescape (encHashOf pKey sig) = inl (encHashOf pKey sig).
Proof.
  unfold encHashOf. split; [|split].
  - rewrite length_EncodeToString. unfold HMAC.Sum. by rewrite length_Sum256.
  - apply verbatim_EncodeToString.
  - apply verbatim_spec, verbatim_EncodeToString.
Qed.

(** X20: unless the window is [-2], [Validate] refuses every request
    whose first [data] value is not 44 characters long, a request without
    [data] among them, whatever the secret key: it returns no map and an
    error with status 401 or 406. *)
Theorem Validate_needs_mac (now : Z) (r : Request) (pKey : string) (W : Z) :
  W ≠ -2 → String.length (Get (Query (URL r)) "data") ≠ 44%nat →
  (Validate now r pKey W).1 = None
  ∧ ∃ e, (Validate now r pKey W).2 = Some e ∧ (Status e = 401 ∨ Status e = 406).
Proof.
  intros H2 Hlen. rewrite Validate_cases. cbv zeta. rewrite decide_False by exact H2.
  destruct (decide (W ≠ -1 ∧ _)); [split; [reflexivity|eexists; split; [reflexivity|by right]]|].
  rewrite decide_False; [split; [reflexivity|eexists; split; [reflexivity|by left]]|].
  intros Heq. apply Hlen. rewrite <-Heq. unfold recomputed, encHashOf.
  rewrite length_EncodeToString. unfold HMAC.Sum. by rewrite length_Sum256.
Qed.

Lemma Validate_needs_mac_witness :
  (Validate 1700000000 (request "GET" "apikey=pub1&foo=bar&ts=1700000000") "s3cr3t" 60).1 = None
  ∧ ∃ e, (Validate 1700000000 (request "GET" "apikey=pub1&foo=bar&ts=1700000000") "s3cr3t" 60).2
         = Some e ∧ (Status e = 401 ∨ Status e = 406).
Proof.
  apply (Validate_needs_mac 1700000000 (request "GET" "apikey=pub1&foo=bar&ts=1700000000")
           "s3cr3t" 60).
  - lia.
  - vm_compute. discriminate.
Defined.

(** * What the error of a failed MAC check tells *)

(** X21: when [Validate] refuses a request with status 401, the text of
    the error quotes, between its first pair of backticks, the MAC that
    the secret key gives for the request as it was sent; the same request
    with that text as its [data] value is accepted by the same call, and
    the parameters returned are those of the refused request without
    [apikey], [ts] and [data]. *)
Theorem mismatch_discloses_mac (now : Z) (r : Request) (pKey : string) (W : Z) (e : Error) :
  Validate now r pKey W = (None, Some e) → Status e = 401 →
  ∃ mac : string,
    s e = "signature mismatch `" +:+ mac +:+ "` != `" +:+ Get (Query (URL r)) "data" +:+ "`"
    ∧ mac ≠ Get (Query (URL r)) "data"
    ∧ Validate now (request (Method r) (Encode (<["data" := [mac]]> (Query (URL r))))) pKey W
      = (Some (Del (Del (Del (Query (URL r)) "data") "apikey") "ts"), None).
Proof.
  rewrite Validate_cases. cbv zeta. set (v := Query (URL r)). unfold recomputed. fold v.
  set (mac := encHashOf pKey (Method r +:+ ":" +:+ Encode (Del v "data"))).
  intros HV He.
  destruct (decide (W = -2)) as [|H2]; [discriminate|].
  destruct (decide (W ≠ -1 ∧ (isValidTS now (Get v "ts") W).2 = false)) as [|Hts].
  { injection HV as <-. discriminate. }
  destruct (decide (mac = Get v "data")) as [|Hne]; [discriminate|].
  injection HV as <-. exists mac. split; [reflexivity|]. split; [exact Hne|].
  assert (Query {| RawQuery := Encode (<["data" := [mac]]> v) |} = <["data" := [mac]]> v) as HQ.
  { apply Query_Encode, nonempty_values_insert; [discriminate|apply Query_nonempty]. }
  rewrite Validate_cases. cbv zeta. unfold recomputed. cbn [request URL Method]. rewrite HQ.
  rewrite decide_False by exact H2.
  rewrite Get_insert_ne by done. rewrite decide_False by exact Hts.
  assert (Del (<["data" := [mac]]> v) "data" = Del v "data") as Hd
    by apply delete_insert_eq.
  rewrite Hd. fold mac. rewrite Get_insert_eq, decide_True by reflexivity.
  unfold stripped. by rewrite Hd.
Qed.

Lemma mismatch_discloses_mac_witness :
  ∃ mac : string,
    "signature mismatch `uvjXS-oziFmOVAt4cXzshE4wjiLVrRuiHjCZh4y6jpA=` != `x`"
    = "signature mismatch `" +:+ mac +:+ "` != `"
        +:+ Get (Query {| RawQuery := "apikey=pub1&data=x&foo=bar&ts=1700000000" |}) "data" +:+ "`"
    ∧ mac ≠ Get (Query {| RawQuery := "apikey=pub1&data=x&foo=bar&ts=1700000000" |}) "data"
    ∧ Validate 1700000000
        (request "GET"
           (Encode (<["data" := [mac]]>
                      (Query {| RawQuery := "apikey=pub1&data=x&foo=bar&ts=1700000000" |}))))
        "s3cr3t" 60
      = (Some (Del (Del (Del (Query {| RawQuery := "apikey=pub1&data=x&foo=bar&ts=1700000000" |})
                              "data") "apikey") "ts"), None).
Proof.
  refine (mismatch_discloses_mac 1700000000
            (request "GET" "apikey=pub1&data=x&foo=bar&ts=1700000000") "s3cr3t" 60
            {| s := "signature mismatch `uvjXS-oziFmOVAt4cXzshE4wjiLVrRuiHjCZh4y6jpA=` != `x`";
               Status := 401 |} _ _).
  - vm_compute. reflexivity.
  - reflexivity.
Defined.
